(** * alx-backend-storage: the MongoDB lister and the instrumented Redis cache

    A shallow embedding of [0x01-NoSQL/8-all.py] and
    [0x02-redis_basic/exercise.py].

    The two stores are servers reached through a client library; the
    embedding carries a model of the commands the code issues (FLUSHDB,
    SET, GET, INCR, RPUSH, LRANGE, and the MongoDB find cursor) and of the
    Python built-ins the code calls ([str], [repr], [int], [bytes.decode],
    [uuid4], [print], [zip]).  The Python functions of the repository are
    written in a small state-and-exception monad over that model. *)

From Stdlib Require Import ZArith Lia Ascii String List Bool.
From Stdlib Require Import Decimal DecimalZ DecimalPos.
From stdpp Require Import gmap strings list fin_maps.

Local Open Scope Z_scope.

(** ** Python values

    A Python [str] is a sequence of code points, a [bytes] object a
    sequence of octets.  Code points are integers; octets are Rocq's 8-bit
    [ascii], so a [bytes] value is a Rocq [string]. *)

Abbreviation text := (list Z).
Abbreviation bytes := string.

Definition ord (a : ascii) : Z := Z.of_N (N_of_ascii a).
Definition chr8 (z : Z) : ascii := ascii_of_N (Z.to_N z).

Definition octets (b : bytes) : list Z := map ord (list_ascii_of_string b).
Definition of_octets (l : list Z) : bytes := string_of_list_ascii (map chr8 l).

(** A [str] literal of the source, all of whose characters are ASCII. *)
Definition lit (s : string) : text := octets s.

(** The exceptions the modelled code paths can raise. *)
Inductive exn :=
| UnicodeEncodeError
| UnicodeDecodeError
| ValueError
| AttributeError
| TypeError
| DataError
| ResponseError (msg : string).

Inductive result (A : Type) :=
| Ok (a : A)
| Raise (e : exn).
Arguments Ok {A} a.
Arguments Raise {A} e.

(** ** UTF-8, as [str.encode('utf-8')] and [bytes.decode('utf-8')] do it
    with the default error handler [strict]. *)

Definition is_surrogate (c : Z) : bool := (0xD800 <=? c) && (c <=? 0xDFFF).

(** A Unicode scalar value: what UTF-8 can carry. *)
Definition is_scalar (c : Z) : bool :=
  (0 <=? c) && (c <? 0x110000) && negb (is_surrogate c).

Definition utf8_encode_cp (c : Z) : option (list Z) :=
  if c <? 0 then None
  else if c <? 0x80 then Some [c]
  else if c <? 0x800 then Some [0xC0 + c / 64; 0x80 + c mod 64]
  else if c <? 0x10000 then
    if is_surrogate c then None
    else Some [0xE0 + c / 4096; 0x80 + (c / 64) mod 64; 0x80 + c mod 64]
  else if c <? 0x110000 then
    Some [0xF0 + c / 262144; 0x80 + (c / 4096) mod 64;
          0x80 + (c / 64) mod 64; 0x80 + c mod 64]
  else None.

Fixpoint utf8_encode_octets (s : text) : option (list Z) :=
  match s with
  | [] => Some []
  | c :: s' =>
      match utf8_encode_cp c, utf8_encode_octets s' with
      | Some bs, Some rest => Some (bs ++ rest)
      | _, _ => None
      end
  end.

Definition utf8_encode (s : text) : option bytes :=
  of_octets <$> utf8_encode_octets s.

Definition is_cont (b : Z) : bool := (0x80 <=? b) && (b <? 0xC0).

Definition push (c : Z) (r : option (list Z)) : option (list Z) :=
  match r with Some l => Some (c :: l) | None => None end.

Fixpoint utf8_decode_octets (bs : list Z) : option (list Z) :=
  match bs with
  | [] => Some []
  | b0 :: r =>
      if b0 <? 0x80 then push b0 (utf8_decode_octets r)
      else if b0 <? 0xC2 then None
      else if b0 <? 0xE0 then
        match r with
        | b1 :: r1 =>
            if is_cont b1
            then push ((b0 - 0xC0) * 64 + (b1 - 0x80)) (utf8_decode_octets r1)
            else None
        | _ => None
        end
      else if b0 <? 0xF0 then
        match r with
        | b1 :: b2 :: r2 =>
            let c := (b0 - 0xE0) * 4096 + (b1 - 0x80) * 64 + (b2 - 0x80) in
            if is_cont b1 && is_cont b2 && (0x800 <=? c) && negb (is_surrogate c)
            then push c (utf8_decode_octets r2)
            else None
        | _ => None
        end
      else if b0 <? 0xF5 then
        match r with
        | b1 :: b2 :: b3 :: r3 =>
            let c := (b0 - 0xF0) * 262144 + (b1 - 0x80) * 4096
                     + (b2 - 0x80) * 64 + (b3 - 0x80) in
            if is_cont b1 && is_cont b2 && is_cont b3
               && (0x10000 <=? c) && (c <? 0x110000)
            then push c (utf8_decode_octets r3)
            else None
        | _ => None
        end
      else None
  end.

Definition utf8_decode (b : bytes) : option text :=
  utf8_decode_octets (octets b).

(** ** Decimal numerals: [repr] of an [int] *)

Fixpoint uint_digits (d : Decimal.uint) : list Z :=
  match d with
  | Nil => []
  | D0 l => 48 :: uint_digits l
  | D1 l => 49 :: uint_digits l
  | D2 l => 50 :: uint_digits l
  | D3 l => 51 :: uint_digits l
  | D4 l => 52 :: uint_digits l
  | D5 l => 53 :: uint_digits l
  | D6 l => 54 :: uint_digits l
  | D7 l => 55 :: uint_digits l
  | D8 l => 56 :: uint_digits l
  | D9 l => 57 :: uint_digits l
  end.

Definition repr_int (z : Z) : text :=
  match Z.to_int z with
  | Decimal.Pos d => uint_digits d
  | Decimal.Neg d => 45 :: uint_digits d
  end.

(** ** Hexadecimal, lower case, fixed width (['%02x'], ['%032x']) *)

Definition hexdigit (d : Z) : Z := if d <? 10 then 48 + d else 87 + d.

Fixpoint hex_fixed (width : nat) (n : Z) : list Z :=
  match width with
  | O => []
  | S w => hexdigit ((n / 16 ^ Z.of_nat w) mod 16) :: hex_fixed w n
  end.

(** ** ASCII classes used by [int] and by the server's counters *)

Definition Py_ISSPACE (c : Z) : bool := (c =? 32) || ((9 <=? c) && (c <=? 13)).

Definition ascii_digit (c : Z) : option Z :=
  if (48 <=? c) && (c <=? 57) then Some (c - 48) else None.

(** ** The key-value server

    One database: a finite map from keys to values, a value being a string
    or a list of strings.  A command against a key of the other kind is
    answered with the WRONGTYPE error.  Counters are integers without a
    bound here (the server's are 64-bit), as are the sizes of values and
    lists. *)

Inductive rval :=
| RString (b : bytes)
| RList (l : list bytes).

Inductive command :=
| FLUSHDB
| SET (key value : bytes)
| GET (key : bytes)
| INCR (key : bytes)
| RPUSH (key value : bytes)
| LRANGE (key : bytes) (start stop : Z).

Inductive reply :=
| Status_OK
| Bulk (b : option bytes)
| Integer (z : Z)
| Multi (l : list bytes)
| Error (msg : string).

Definition WRONGTYPE : string :=
  "WRONGTYPE Operation against a key holding the wrong kind of value".
Definition NOT_AN_INTEGER : string :=
  "ERR value is not an integer or out of range".

(** The server reads a counter only in canonical form: an optional minus
    sign and digits, exactly as it would print the number itself. *)
Fixpoint digits_value (s : list Z) (acc : Z) : option Z :=
  match s with
  | [] => Some acc
  | c :: r =>
      match ascii_digit c with
      | Some d => digits_value r (10 * acc + d)
      | None => None
      end
  end.

Definition counter_value (b : bytes) : option Z :=
  let s := octets b in
  let v := match s with
           | c :: r => if c =? 45 then Z.opp <$> digits_value r 0
                       else digits_value s 0
           | [] => None
           end in
  match v with
  | Some z => if bool_decide (repr_int z = s) then Some z else None
  | None => None
  end.

Definition counter_bytes (z : Z) : bytes := of_octets (repr_int z).

(** LRANGE with Redis's index rules: negative indices count from the end,
    out-of-range indices are clipped. *)
Definition lrange (l : list bytes) (start stop : Z) : list bytes :=
  let n := Z.of_nat (length l) in
  let start := if start <? 0 then Z.max 0 (n + start) else start in
  let stop := if stop <? 0 then n + stop else stop in
  let stop := Z.min stop (n - 1) in
  if (stop <? start) || (n <=? start) then []
  else take (Z.to_nat (stop - start + 1)) (drop (Z.to_nat start) l).

Definition serve (c : command) (db : gmap string rval) : reply * gmap string rval :=
  match c with
  | FLUSHDB => (Status_OK, ∅)
  | SET k v => (Status_OK, <[k := RString v]> db)
  | GET k =>
      match db !! k with
      | None => (Bulk None, db)
      | Some (RString b) => (Bulk (Some b), db)
      | Some (RList _) => (Error WRONGTYPE, db)
      end
  | INCR k =>
      match db !! k with
      | None => (Integer 1, <[k := RString (counter_bytes 1)]> db)
      | Some (RString b) =>
          match counter_value b with
          | Some z => (Integer (z + 1), <[k := RString (counter_bytes (z + 1))]> db)
          | None => (Error NOT_AN_INTEGER, db)
          end
      | Some (RList _) => (Error WRONGTYPE, db)
      end
  | RPUSH k v =>
      match db !! k with
      | None => (Integer 1, <[k := RList [v]]> db)
      | Some (RList l) =>
          (Integer (Z.of_nat (length l) + 1), <[k := RList (l ++ [v])]> db)
      | Some (RString _) => (Error WRONGTYPE, db)
      end
  | LRANGE k start stop =>
      match db !! k with
      | None => (Multi [], db)
      | Some (RList l) => (Multi (lrange l start stop), db)
      | Some (RString _) => (Error WRONGTYPE, db)
      end
  end.

(** ** The world a call runs in, and the monad of the Python code

    The server's database, the commands sent to it so far (oldest first),
    the operating system's random source with the number of draws made,
    and what has been printed.  An exception leaves the world as it was
    when it was raised: commands already served stay served. *)

Record World := mkWorld {
  server : gmap string rval;
  wire : list command;
  entropy : nat -> Z;
  drawn : nat;
  stdout : list text
}.

Definition M (A : Type) : Type := World -> result A * World.

Definition ret {A} (a : A) : M A := fun w => (Ok a, w).
Definition raise {A} (e : exn) : M A := fun w => (Raise e, w).
Definition bind {A B} (m : M A) (k : A -> M B) : M B :=
  fun w => match m w with
           | (Ok a, w') => k a w'
           | (Raise e, w') => (Raise e, w')
           end.
(** [try: m except Exception: h] *)
Definition try_except {A} (m : M A) (h : exn -> M A) : M A :=
  fun w => match m w with
           | (Ok a, w') => (Ok a, w')
           | (Raise e, w') => h e w'
           end.
Definition lift {A} (r : result A) : M A := fun w => (r, w).

Notation "x <- c1 ;; c2" := (bind c1 (fun x => c2))
  (at level 100, c1 at next level, right associativity).
Notation "c1 ;;; c2" := (bind c1 (fun _ => c2))
  (at level 100, right associativity).

Definition of_option {A} (e : exn) (o : option A) : result A :=
  match o with Some a => Ok a | None => Raise e end.

(** *** [uuid4] and [print] *)

Definition os_urandom16 : M Z :=
  fun w =>
    (Ok (entropy w (drawn w) mod 2 ^ 128),
     mkWorld (server w) (wire w) (entropy w) (S (drawn w)) (stdout w)).

(** [UUID(bytes=os.urandom(16), version=4)]: the variant and version bits
    are forced. *)
Definition uuid4_of (r : Z) : Z :=
  let i := Z.land r (Z.lnot (Z.shiftl 0xc000 48)) in
  let i := Z.lor i (Z.shiftl 0x8000 48) in
  let i := Z.land i (Z.lnot (Z.shiftl 0xf000 64)) in
  Z.lor i (Z.shiftl 4 76).

Definition uuid4 : M Z := r <- os_urandom16 ;; ret (uuid4_of r).

(** [str] of a UUID: 32 hexadecimal digits in groups of 8-4-4-4-12. *)
Definition str_uuid (u : Z) : text :=
  let h := hex_fixed 32 u in
  take 8 h ++ lit "-" ++ take 4 (drop 8 h) ++ lit "-" ++ take 4 (drop 12 h)
  ++ lit "-" ++ take 4 (drop 16 h) ++ lit "-" ++ drop 20 h.

Definition print (line : text) : M unit :=
  fun w => (Ok tt, mkWorld (server w) (wire w) (entropy w) (drawn w) (stdout w ++ [line])).

(** ** A concrete interpreter and world, for running the code

    Floats restricted to the integral ones of moderate size, printed as
    Python prints them (a decimal numeral followed by [.0]); Unicode tables restricted to
    Latin-1, General Punctuation white space and the Arabic-Indic digits;
    a fixed random source. *)

Definition sample_float_repr (f : Z) : string := of_octets (repr_int f ++ lit ".0").

Definition sample_printable (c : Z) : bool :=
  (0xA1 <=? c) && (c <=? 0xFF) && negb (c =? 0xAD).

Definition sample_space (c : Z) : bool :=
  (c =? 0x85) || (c =? 0xA0) || (c =? 0x1680) || ((0x2000 <=? c) && (c <=? 0x200A))
  || (c =? 0x2028) || (c =? 0x2029) || (c =? 0x202F) || (c =? 0x205F) || (c =? 0x3000).

Definition sample_decimal (c : Z) : option Z :=
  if (0x660 <=? c) && (c <=? 0x669) then Some (c - 0x660) else None.

Definition sample_entropy (i : nat) : Z :=
  (Z.of_nat i + 1) * 0x9E3779B97F4A7C15F39CC0605CEDC835.

Definition fresh_world : World :=
  mkWorld ∅ [] sample_entropy 0 [].

(** A world whose logs have drifted apart: three inputs, the second of
    them not UTF-8, and two outputs. *)
Definition drifted_world : World :=
  mkWorld
    (<["Cache.store" := RString "3"]>
       (<["Cache.store:inputs" := RList ["('a',)"; of_octets [255]; "('c',)"]]>
          (<["Cache.store:outputs" := RList ["k1"; "k2"]]> ∅)))
    [] sample_entropy 0 [].

(** A world whose random source always gives the same bytes. *)
Definition stuck_world : World :=
  mkWorld ∅ [] (fun _ => 7) 0 [].

(** ** 8-all.py *)

Section Mongo.

Variable Document : Type.

(** A collection holds its documents in the server's natural order. *)
Record Collection := mkCollection { documents : list Document }.

(** A cursor is what iterating it yields: a next document and the cursor
    after it, or nothing more ([StopIteration]). *)
Inductive Cursor :=
| Exhausted
| Yield (doc : Document) (rest : Cursor).

(** [find] with no filter opens a cursor over every document. *)
Definition Collection_find (c : Collection) : Cursor :=
  fold_right Yield Exhausted (documents c).

(** [[doc for doc in docs]] *)
Fixpoint comprehension (docs : Cursor) : list Document :=
  match docs with
  | Exhausted => []
  | Yield doc rest => doc :: comprehension rest
  end.

Definition list_all (mongo_collection : option Collection) : list Document :=
  match mongo_collection with
  | None => []
  | Some coll =>
      let docs := Collection_find coll in
      comprehension docs
  end.

End Mongo.

Arguments Exhausted {Document}.
Arguments documents {Document} c.
Arguments list_all {Document} mongo_collection.

(** ** The interpreter's tables

    CPython consults its Unicode database for non-ASCII characters
    ([str.isprintable] in [repr], white space and decimal digits in
    [int]), and prints a float with its shortest round-trip numeral.
    Neither the database nor the float printer belongs to this repository:
    they are parameters here.  Everything ASCII is written out. *)

Section Interpreter.

Variable float : Type.
(** [repr] of a float; its characters are Latin-1 (in CPython: ASCII). *)
Variable float_repr : float -> string.
(** [Py_UNICODE_ISPRINTABLE], consulted for code points above 127. *)
Variable uni_printable : Z -> bool.
(** [Py_UNICODE_ISSPACE], consulted for code points from 127 up. *)
Variable uni_space : Z -> bool.
(** [Py_UNICODE_TODECIMAL], consulted for code points from 127 up. *)
Variable uni_decimal : Z -> option Z.

Inductive pyval :=
| PNone
| PStr (s : text)
| PBytes (b : bytes)
| PInt (z : Z)
| PFloat (f : float).

(** *** [repr] and [str] *)

Definition has (c : Z) (s : list Z) : bool := existsb (Z.eqb c) s.

(** The quote is the double one (34) only when the value holds a single
    quote (39) and no double quote. *)
Definition repr_quote (s : list Z) : Z :=
  if has 39 s && negb (has 34 s) then 34 else 39.

Definition repr_str_char (quote c : Z) : text :=
  if (c =? quote) || (c =? 92) then [92; c]
  else if c =? 9 then [92; 116]
  else if c =? 10 then [92; 110]
  else if c =? 13 then [92; 114]
  else if (c <? 32) || (c =? 127) then 92 :: 120 :: hex_fixed 2 c
  else if c <? 127 then [c]
  else if uni_printable c then [c]
  else if c <=? 0xFF then 92 :: 120 :: hex_fixed 2 c
  else if c <=? 0xFFFF then 92 :: 117 :: hex_fixed 4 c
  else 92 :: 85 :: hex_fixed 8 c.

Definition repr_str (s : text) : text :=
  let q := repr_quote s in
  q :: flat_map (repr_str_char q) s ++ [q].

Definition repr_bytes_char (quote c : Z) : text :=
  if (c =? quote) || (c =? 92) then [92; c]
  else if c =? 9 then [92; 116]
  else if c =? 10 then [92; 110]
  else if c =? 13 then [92; 114]
  else if (c <? 32) || (0x7F <=? c) then 92 :: 120 :: hex_fixed 2 c
  else [c].

Definition repr_bytes (b : bytes) : text :=
  let bs := octets b in
  let q := repr_quote bs in
  98 :: q :: flat_map (repr_bytes_char q) bs ++ [q].

Definition py_repr (v : pyval) : text :=
  match v with
  | PNone => lit "None"
  | PStr s => repr_str s
  | PBytes b => repr_bytes b
  | PInt z => repr_int z
  | PFloat f => lit (float_repr f)
  end.

(** [str(v)]: a [str] is its own [str]; the other types print as [repr]. *)
Definition py_str (v : pyval) : text :=
  match v with
  | PStr s => s
  | _ => py_repr v
  end.

Fixpoint join_reprs (vs : list pyval) : text :=
  match vs with
  | [] => []
  | [v] => py_repr v
  | v :: rest => py_repr v ++ lit ", " ++ join_reprs rest
  end.

(** [str(args)] of a tuple: a one-element tuple prints with a trailing
    comma, the others with their elements separated by a comma and a blank. *)
Definition str_tuple (vs : list pyval) : text :=
  match vs with
  | [v] => lit "(" ++ py_repr v ++ lit ",)"
  | _ => lit "(" ++ join_reprs vs ++ lit ")"
  end.

(** *** [int(s)] for a [str] argument, base ten *)

(** A string with a non-ASCII character is first rewritten: Unicode white
    space becomes a blank, a Unicode decimal digit its ASCII digit, and the
    first character that is neither ends the string with a ['?']. *)
Fixpoint transform_non_ascii (s : text) : text :=
  match s with
  | [] => []
  | c :: r =>
      if c <? 127 then c :: transform_non_ascii r
      else if uni_space c then 32 :: transform_non_ascii r
      else match uni_decimal c with
           | Some d => (48 + d) :: transform_non_ascii r
           | None => [63]
           end
  end.

Definition transform_decimal_and_space (s : text) : text :=
  if forallb (fun c => c <? 128) s then s else transform_non_ascii s.

Fixpoint skip_space (s : text) : text :=
  match s with
  | c :: r => if Py_ISSPACE c then skip_space r else s
  | [] => []
  end.

(** Digits, with single underscores between them; [prev] is the character
    before, [n] the number of digits read.  Stops at the first other
    character and returns the value, the digit count and the rest. *)
Fixpoint scan_digits (s : text) (prev acc : Z) (n : nat) : option (Z * nat * text) :=
  match s with
  | c :: r =>
      if c =? 95 then
        if prev =? 95 then None else scan_digits r 95 acc n
      else match ascii_digit c with
           | Some d => scan_digits r c (10 * acc + d) (S n)
           | None => if prev =? 95 then None else Some (acc, n, s)
           end
  | [] => if prev =? 95 then None else Some (acc, n, s)
  end.

Definition head_is (c : Z) (s : text) : bool :=
  match s with
  | x :: _ => x =? c
  | [] => false
  end.

(** [PyLong_FromString] in base ten: blanks, a sign, digits, blanks. *)
Definition parse_long (s : text) : option Z :=
  let s := skip_space s in
  let '(sign, s) :=
    if head_is 43 s then (1, tail s)
    else if head_is 45 s then (-1, tail s)
    else (1, s) in
  if head_is 95 s then None
  else
    match scan_digits s 0 0 O with
    | Some (v, n, rest) =>
        match n, skip_space rest with
        | S _, [] => Some (sign * v)
        | _, _ => None
        end
    | None => None
    end.

Definition py_int (s : text) : option Z :=
  parse_long (transform_decimal_and_space s).


(** *** The client library (redis-py) *)

(** What the client sends for an argument: bytes as they are, numbers as
    their [repr], text as UTF-8. *)
Definition Encoder_encode (v : pyval) : result bytes :=
  match v with
  | PBytes b => Ok b
  | PInt _ | PFloat _ => of_option UnicodeEncodeError (utf8_encode (py_repr v))
  | PStr s => of_option UnicodeEncodeError (utf8_encode s)
  | PNone => Raise DataError
  end.

Definition send (c : command) : M reply :=
  fun w =>
    let '(r, db) := serve c (server w) in
    (Ok r, mkWorld db (wire w ++ [c]) (entropy w) (drawn w) (stdout w)).

Definition protocol_error {A} : M A := raise (ResponseError "unexpected reply").

Definition Redis_flushdb : M bool :=
  r <- send FLUSHDB ;;
  match r with
  | Status_OK => ret true
  | Error m => raise (ResponseError m)
  | _ => protocol_error
  end.

Definition Redis_set (name value : pyval) : M bool :=
  k <- lift (Encoder_encode name) ;;
  v <- lift (Encoder_encode value) ;;
  r <- send (SET k v) ;;
  match r with
  | Status_OK => ret true
  | Error m => raise (ResponseError m)
  | _ => protocol_error
  end.

Definition Redis_get (name : pyval) : M pyval :=
  k <- lift (Encoder_encode name) ;;
  r <- send (GET k) ;;
  match r with
  | Bulk (Some b) => ret (PBytes b)
  | Bulk None => ret PNone
  | Error m => raise (ResponseError m)
  | _ => protocol_error
  end.

Definition Redis_incr (name : pyval) : M Z :=
  k <- lift (Encoder_encode name) ;;
  r <- send (INCR k) ;;
  match r with
  | Integer z => ret z
  | Error m => raise (ResponseError m)
  | _ => protocol_error
  end.

Definition Redis_rpush (name value : pyval) : M Z :=
  k <- lift (Encoder_encode name) ;;
  v <- lift (Encoder_encode value) ;;
  r <- send (RPUSH k v) ;;
  match r with
  | Integer z => ret z
  | Error m => raise (ResponseError m)
  | _ => protocol_error
  end.

Definition Redis_lrange (name : pyval) (start stop : Z) : M (list bytes) :=
  k <- lift (Encoder_encode name) ;;
  r <- send (LRANGE k start stop) ;;
  match r with
  | Multi l => ret l
  | Error m => raise (ResponseError m)
  | _ => protocol_error
  end.


(** ** exercise.py *)

(** A method: its [__qualname__] and what calling it with [*args] and
    [**kwargs] does.  [self] is the cache, whose one attribute [_redis] is
    the connection to the server of the world. *)
Record Method := mkMethod {
  qualname : text;
  call : list pyval -> list (text * pyval) -> M pyval
}.

(** Decorator: [count_calls].  [functools.wraps] hands the wrapped method's
    [__qualname__] to the wrapper. *)
Definition count_calls (method : Method) : Method :=
  let key := qualname method in
  mkMethod (qualname method)
    (fun args kwargs =>
       Redis_incr (PStr key) ;;;
       call method args kwargs).

(** Decorator: [call_history]. *)
Definition call_history (method : Method) : Method :=
  mkMethod (qualname method)
    (fun args kwargs =>
       let input := str_tuple args in
       Redis_rpush (PStr (qualname method ++ lit ":inputs")) (PStr input) ;;;
       r <- call method args kwargs ;;
       let output := py_str r in
       Redis_rpush (PStr (qualname method ++ lit ":outputs")) (PStr output) ;;;
       ret (PStr output)).

(** [Cache.__init__] *)
Definition Cache_init : M unit :=
  Redis_flushdb ;;;
  ret tt.

(** Binding the call's arguments to the one parameter [data]. *)
Definition bind_data (args : list pyval) (kwargs : list (text * pyval)) : option pyval :=
  match args, kwargs with
  | [data], [] => Some data
  | [], [(name, data)] => if bool_decide (name = lit "data") then Some data else None
  | _, _ => None
  end.

(** The body of [Cache.store], before decoration. *)
Definition store_body : Method :=
  mkMethod (lit "Cache.store")
    (fun args kwargs =>
       match bind_data args kwargs with
       | Some data =>
           u <- uuid4 ;;
           let random_key := str_uuid u in
           Redis_set (PStr random_key) data ;;;
           ret (PStr random_key)
       | None => raise TypeError
       end).

(** [@call_history] above [@count_calls] above [def store]. *)
Definition Cache_store : Method := call_history (count_calls store_body).

(** [Cache.get] *)
Definition Cache_get (key : pyval) (fn : option (pyval -> M pyval)) : M pyval :=
  value <- Redis_get key ;;
  match fn with
  | Some f => f value
  | None => ret value
  end.

(** [value.decode("utf-8")]: a method of [bytes] only. *)
Definition decode_utf8 (value : pyval) : result text :=
  match value with
  | PBytes b => of_option UnicodeDecodeError (utf8_decode b)
  | _ => Raise AttributeError
  end.

(** [int(s)] *)
Definition int_of_str (s : text) : result Z := of_option ValueError (py_int s).

(** [Cache.get_str] *)
Definition Cache_get_str (key : pyval) : M text :=
  value <- Redis_get key ;;
  lift (decode_utf8 value).

(** [Cache.get_int] *)
Definition Cache_get_int (key : pyval) : M Z :=
  value <- Redis_get key ;;
  try_except
    (s <- lift (decode_utf8 value) ;;
     lift (int_of_str s))
    (fun _ => ret 0).

(** The body of the loop of [replay]. *)
Definition replay_line (f_name : text) (io : bytes * bytes) : M unit :=
  let '(i, o) := io in
  i <- try_except (lift (decode_utf8 (PBytes i))) (fun _ => ret []) ;;
  o <- try_except (lift (decode_utf8 (PBytes o))) (fun _ => ret []) ;;
  print (f_name ++ lit "(*" ++ i ++ lit ") -> " ++ o).

Fixpoint for_each {A} (l : list A) (body : A -> M unit) : M unit :=
  match l with
  | [] => ret tt
  | x :: rest => body x ;;; for_each rest body
  end.

(** [replay]; its own [redis.Redis()] is a second connection to the same
    server. *)
Definition replay (fn : Method) : M unit :=
  let f_name := qualname fn in
  n_calls <- Redis_get (PStr f_name) ;;
  n_calls <- try_except
               (s <- lift (decode_utf8 n_calls) ;; ret (PStr s))
               (fun _ => ret (PInt 0)) ;;
  print (f_name ++ lit " was called " ++ py_str n_calls ++ lit " times:") ;;;
  ins <- Redis_lrange (PStr (f_name ++ lit ":inputs")) 0 (-1) ;;
  outs <- Redis_lrange (PStr (f_name ++ lit ":outputs")) 0 (-1) ;;
  for_each (zip ins outs) (replay_line f_name).



(** ** Calls, runs and what the specification speaks of *)

(** A well-formed call of [store]: the value by position or as [data=]. *)
Inductive StoreCall :=
| ByPosition (data : pyval)
| ByKeyword (data : pyval).

Definition call_data (c : StoreCall) : pyval :=
  match c with ByPosition d | ByKeyword d => d end.
Definition call_args (c : StoreCall) : list pyval :=
  match c with ByPosition d => [d] | ByKeyword _ => [] end.
Definition call_kwargs (c : StoreCall) : list (text * pyval) :=
  match c with ByPosition _ => [] | ByKeyword d => [(lit "data", d)] end.

(** [cache.store(...)] *)
Definition store (c : StoreCall) : M pyval :=
  call Cache_store (call_args c) (call_kwargs c).

(** A script that calls [store] once per element, in order, and collects
    the returned keys; an exception ends it. *)
Fixpoint store_all (cs : list StoreCall) : M (list pyval) :=
  match cs with
  | [] => ret []
  | c :: rest =>
      k <- store c ;;
      ks <- store_all rest ;;
      ret (k :: ks)
  end.

(** The values the specification lets [store] take: text (Unicode scalar
    values), bytes, integers and floats. *)
Definition supported (v : pyval) : bool :=
  match v with
  | PStr s => forallb is_scalar s
  | PBytes _ | PInt _ | PFloat _ => true
  | PNone => false
  end.

Definition counter_key : bytes := "Cache.store".
Definition inputs_key : bytes := "Cache.store:inputs".
Definition outputs_key : bytes := "Cache.store:outputs".

(** The list stored under a key (empty when the key is absent). *)
Definition list_at (w : World) (k : bytes) : list bytes :=
  match server w !! k with
  | Some (RList l) => l
  | _ => []
  end.

Definition holds_list (w : World) (k : bytes) : bool :=
  match server w !! k with
  | None | Some (RList _) => true
  | Some (RString _) => false
  end.

Definition holds_counter (w : World) (k : bytes) : bool :=
  match server w !! k with
  | None => true
  | Some (RString b) => bool_decide (is_Some (counter_value b))
  | Some (RList _) => false
  end.

(** The counter stored under a key (zero when the key is absent). *)
Definition count_at (w : World) (k : bytes) : Z :=
  match server w !! k with
  | Some (RString b) => default 0 (counter_value b)
  | _ => 0
  end.

(** A world in which the history of [store] can be kept: its counter key
    is free or holds a counter, its two log keys are free or hold lists. *)
Definition ready (w : World) : bool :=
  holds_counter w counter_key && holds_list w inputs_key && holds_list w outputs_key.

(** The commands a computation sends, and the world it leaves. *)
Definition after {A} (m : M A) (w : World) : World := snd (m w).
Definition issued {A} (m : M A) (w : World) : list command :=
  drop (length (wire w)) (wire (after m w)).

(** The order the specification gives: the counter first. *)
Definition counter_first (cmds : list command) : bool :=
  match cmds with
  | [INCR _; RPUSH _ _; SET _ _; RPUSH _ _] => true
  | _ => false
  end.

(** What one entry of the replay prints as: its text, or nothing when it
    is not UTF-8. *)
Definition shown (entry : bytes) : text := default [] (utf8_decode entry).

(** ** Notions used in the statements and proofs *)

Definition is_octet (b : Z) : Prop := 0 <= b < 256.
Definition is_ascii (c : Z) : Prop := 0 <= c < 128.

Definition is_digit (c : Z) : Prop := 48 <= c <= 57.

(** The value of a numeral read from the left with an accumulator. *)
Fixpoint uint_value (d : Decimal.uint) (acc : Z) : Z :=
  match d with
  | Nil => acc
  | D0 l => uint_value l (10 * acc + 0)
  | D1 l => uint_value l (10 * acc + 1)
  | D2 l => uint_value l (10 * acc + 2)
  | D3 l => uint_value l (10 * acc + 3)
  | D4 l => uint_value l (10 * acc + 4)
  | D5 l => uint_value l (10 * acc + 5)
  | D6 l => uint_value l (10 * acc + 6)
  | D7 l => uint_value l (10 * acc + 7)
  | D8 l => uint_value l (10 * acc + 8)
  | D9 l => uint_value l (10 * acc + 9)
  end.

(** The key of a stored value, as the server sees it. *)
Definition key_bytes (u : Z) : bytes := of_octets (str_uuid u).

Definition Scalar (s : text) : Prop := Forall (fun c => is_scalar c = true) s.

(** What [GET] answers in a world, as the client hands it on. *)
Definition got (w : World) (k : bytes) : result pyval :=
  match server w !! k with
  | None => Ok PNone
  | Some (RString b) => Ok (PBytes b)
  | Some (RList _) => Raise (ResponseError WRONGTYPE)
  end.

Definition asked (w : World) (c : command) : World :=
  mkWorld (server w) (wire w ++ [c]) (entropy w) (drawn w) (stdout w).

(** The UUID the next call of [uuid4] produces. *)
Definition next_uuid (w : World) : Z := uuid4_of (entropy w (drawn w) mod 2 ^ 128).

(** The world after a call of [store] that logged [input] and stored
    [value]. *)
Definition stored (w : World) (input value : bytes) : World :=
  let k := key_bytes (next_uuid w) in
  mkWorld
    (<[outputs_key := RList (list_at w outputs_key ++ [k])]>
       (<[k := RString value]>
          (<[counter_key := RString (counter_bytes (count_at w counter_key + 1))]>
             (<[inputs_key := RList (list_at w inputs_key ++ [input])]> (server w)))))
    (wire w ++ [RPUSH inputs_key input; INCR counter_key; SET k value; RPUSH outputs_key k])
    (entropy w) (S (drawn w)) (stdout w).

Definition flushed (w : World) : World :=
  mkWorld ∅ (wire w ++ [FLUSHDB]) (entropy w) (drawn w) (stdout w).

(** What the log of outputs holds for a returned key. *)
Definition logs_key (key : pyval) (entry : bytes) : Prop :=
  exists k, key = PStr k /\ utf8_encode k = Some entry.

(** What the log of inputs holds for a call. *)
Definition logs_call (c : StoreCall) (entry : bytes) : Prop :=
  utf8_encode (str_tuple (call_args c)) = Some entry.

Fixpoint count_incr (k : bytes) (cmds : list command) : nat :=
  match cmds with
  | [] => O
  | INCR k' :: rest => if bool_decide (k' = k) then S (count_incr k rest) else count_incr k rest
  | _ :: rest => count_incr k rest
  end.

(** What [get_int] makes of what [GET] answered. *)
Definition as_int (v : pyval) : Z :=
  match v with
  | PBytes b =>
      match utf8_decode b with
      | Some s => default 0 (py_int s)
      | None => 0
      end
  | _ => 0
  end.

(** The session the specification speaks of: a cache is constructed, then
    [store] is called once per element. *)
Definition session (cs : list StoreCall) : M (list pyval) :=
  Cache_init ;;; store_all cs.

Definition printed (w : World) (lines : list text) : World :=
  mkWorld (server w) (wire w) (entropy w) (drawn w) (stdout w ++ lines).

(** The line [replay] prints for one pair of entries. *)
Definition trace_line (f_name : text) (io : bytes * bytes) : text :=
  f_name ++ lit "(*" ++ shown (fst io) ++ lit ") -> " ++ shown (snd io).

(** The count [replay] prints for what [GET] answered. *)
Definition shown_count (v : pyval) : text :=
  match v with
  | PBytes b => match utf8_decode b with Some s => s | None => lit "0" end
  | _ => lit "0"
  end.

Definition holds_string (w : World) (k : bytes) : bool :=
  match server w !! k with
  | Some (RList _) => false
  | _ => true
  end.

(** ** Notions used for the further properties *)

(** The world after the server took [RPUSH k v] on a list key, after it
    took [INCR k] on a counter key, and after one draw from the random
    source. *)
Definition pushed (w : World) (k v : bytes) : World :=
  mkWorld (<[k := RList (list_at w k ++ [v])]> (server w))
          (wire w ++ [RPUSH k v]) (entropy w) (drawn w) (stdout w).

Definition counted (w : World) (k : bytes) : World :=
  mkWorld (<[k := RString (counter_bytes (count_at w k + 1))]> (server w))
          (wire w ++ [INCR k]) (entropy w) (drawn w) (stdout w).

Definition drew (w : World) : World :=
  mkWorld (server w) (wire w) (entropy w) (S (drawn w)) (stdout w).

(** A computation that leaves the server's database as it found it. *)
Definition read_only {A} (m : M A) : Prop :=
  forall w, server (after m w) = server w.

(** [lambda d: d.decode("utf-8")] as an argument of [get]. *)
Definition decode_callable (d : pyval) : M pyval :=
  s <- lift (decode_utf8 d) ;;
  ret (PStr s).

(** The conversion of [get_int] as an argument of [get]: [int] of the
    decoded text, or 0 on any exception. *)
Definition int_callable (d : pyval) : M pyval :=
  try_except
    (s <- lift (decode_utf8 d) ;;
     n <- lift (int_of_str s) ;;
     ret (PInt n))
    (fun _ => ret (PInt 0)).

(** What a caller sees of a result of type [A] as a Python value. *)
Definition as_value {A} (inj : A -> pyval) (r : result A * World) : result pyval * World :=
  match r with
  | (Ok a, w) => (Ok (inj a), w)
  | (Raise e, w) => (Raise e, w)
  end.

(** * Verification *)

(** ** Octets and byte strings *)

Lemma ord_chr8 z : is_octet z -> ord (chr8 z) = z.
Proof.
  intros Hz. unfold ord, chr8, is_octet in *.
  rewrite N_ascii_embedding by lia. lia.
Qed.

Lemma chr8_ord a : chr8 (ord a) = a.
Proof.
  unfold ord, chr8. rewrite N2Z.id. apply ascii_N_embedding.
Qed.

Lemma ord_octet a : is_octet (ord a).
Proof.
  unfold ord, is_octet. pose proof (N_ascii_bounded a). lia.
Qed.

Lemma octets_of_octets l : Forall is_octet l -> octets (of_octets l) = l.
Proof.
  intros Hl. unfold octets, of_octets.
  rewrite list_ascii_of_string_of_list_ascii, map_map.
  induction Hl as [|z l Hz _ IH]; simpl; [reflexivity|].
  rewrite ord_chr8 by assumption. now f_equal.
Qed.

Lemma of_octets_octets b : of_octets (octets b) = b.
Proof.
  unfold octets, of_octets. rewrite map_map.
  rewrite <- (string_of_list_ascii_of_string b) at 2.
  f_equal. induction (list_ascii_of_string b) as [|a l IH]; simpl; [reflexivity|].
  now rewrite chr8_ord, IH.
Qed.

Lemma octets_are_octets b : Forall is_octet (octets b).
Proof.
  unfold octets. apply Forall_map, Forall_true. intros a. apply ord_octet.
Qed.

Lemma of_octets_length l : String.length (of_octets l) = length l.
Proof.
  unfold of_octets. induction l as [|z l IH]; simpl; [reflexivity|]. now rewrite IH.
Qed.

Lemma of_octets_app l1 l2 : of_octets (l1 ++ l2) = (of_octets l1 +:+ of_octets l2)%string.
Proof.
  unfold of_octets. induction l1 as [|z l1 IH]; simpl; [reflexivity|]. now rewrite IH.
Qed.

Lemma of_octets_inj l1 l2 :
  Forall is_octet l1 -> Forall is_octet l2 -> of_octets l1 = of_octets l2 -> l1 = l2.
Proof.
  intros H1 H2 Heq. rewrite <- (octets_of_octets l1), <- (octets_of_octets l2) by assumption.
  now rewrite Heq.
Qed.

Lemma ascii_is_octet c : is_ascii c -> is_octet c.
Proof. unfold is_ascii, is_octet. lia. Qed.

(** ** UTF-8: decoding undoes encoding *)

Ltac split_ltb :=
  repeat match goal with
    | |- context [?a <? ?b] => destruct (Z.ltb_spec a b)
    | |- context [?a <=? ?b] => destruct (Z.leb_spec a b)
    | H : context [?a <? ?b] |- _ => destruct (Z.ltb_spec a b)
    | H : context [?a <=? ?b] |- _ => destruct (Z.leb_spec a b)
    end.

Ltac divmod_lia := Z.div_mod_to_equations; lia.

Lemma utf8_encode_cp_octets c bs : utf8_encode_cp c = Some bs -> Forall is_octet bs.
Proof.
  unfold utf8_encode_cp, is_surrogate, is_octet. intros H.
  split_ltb; simpl in H; try discriminate; injection H as <-;
    repeat constructor; divmod_lia.
Qed.

Lemma utf8_decode_encode_cp c bs rest :
  utf8_encode_cp c = Some bs ->
  utf8_decode_octets (bs ++ rest) = push c (utf8_decode_octets rest).
Proof.
  unfold utf8_encode_cp, is_surrogate. intros H.
  split_ltb; simpl in H; try discriminate; injection H as <-;
    cbn [app utf8_decode_octets]; unfold is_cont, is_surrogate;
    split_ltb; try divmod_lia; cbn [andb negb]; f_equal; divmod_lia.
Qed.

Lemma utf8_encode_cp_scalar c : is_scalar c = true -> is_Some (utf8_encode_cp c).
Proof.
  unfold is_scalar, utf8_encode_cp, is_surrogate. intros H.
  split_ltb; simpl in *; try discriminate; try lia; eauto.
Qed.

Lemma utf8_encode_octets_total s :
  forallb is_scalar s = true -> is_Some (utf8_encode_octets s).
Proof.
  induction s as [|c s IH]; simpl; [eauto|].
  intros [Hc Hs]%andb_true_iff.
  destruct (utf8_encode_cp_scalar c Hc) as [bs ->], (IH Hs) as [rest ->]. eauto.
Qed.

Lemma utf8_encode_octets_sound s bs :
  utf8_encode_octets s = Some bs ->
  Forall is_octet bs /\ utf8_decode_octets bs = Some s.
Proof.
  revert bs. induction s as [|c s IH]; simpl; intros bs H.
  - injection H as <-. split; [constructor | reflexivity].
  - destruct (utf8_encode_cp c) as [b|] eqn:Hc; [|discriminate].
    destruct (utf8_encode_octets s) as [rest|]; [|discriminate].
    injection H as <-. destruct (IH rest eq_refl) as [Ho Hd]. split.
    + apply Forall_app. split; [eapply utf8_encode_cp_octets; eassumption | assumption].
    + rewrite (utf8_decode_encode_cp c b rest Hc), Hd. reflexivity.
Qed.

Lemma utf8_round_trip s b : utf8_encode s = Some b -> utf8_decode b = Some s.
Proof.
  unfold utf8_encode, utf8_decode. intros H.
  destruct (utf8_encode_octets s) as [bs|] eqn:Hs; [|discriminate].
  injection H as <-. destruct (utf8_encode_octets_sound s bs Hs) as [Ho Hd].
  now rewrite octets_of_octets.
Qed.

Lemma utf8_encode_total s : forallb is_scalar s = true -> is_Some (utf8_encode s).
Proof.
  intros H. unfold utf8_encode. destruct (utf8_encode_octets_total s H) as [bs ->]. eauto.
Qed.

Lemma utf8_encode_ascii s : Forall is_ascii s -> utf8_encode s = Some (of_octets s).
Proof.
  intros H. unfold utf8_encode.
  assert (utf8_encode_octets s = Some s) as ->; [|reflexivity].
  induction H as [|c s Hc _ IH]; simpl; [reflexivity|].
  rewrite IH. unfold utf8_encode_cp. unfold is_ascii in Hc.
  split_ltb; try lia. reflexivity.
Qed.

Lemma utf8_decode_ascii s : Forall is_ascii s -> utf8_decode (of_octets s) = Some s.
Proof.
  intros H. apply utf8_round_trip, utf8_encode_ascii, H.
Qed.

Lemma utf8_encode_app s1 s2 b1 b2 :
  utf8_encode s1 = Some b1 -> utf8_encode s2 = Some b2 ->
  utf8_encode (s1 ++ s2) = Some (b1 +:+ b2)%string.
Proof.
  unfold utf8_encode. intros H1 H2.
  destruct (utf8_encode_octets s1) as [o1|] eqn:E1; [|discriminate].
  destruct (utf8_encode_octets s2) as [o2|] eqn:E2; [|discriminate].
  injection H1 as <-. injection H2 as <-.
  assert (utf8_encode_octets (s1 ++ s2) = Some (o1 ++ o2)) as ->.
  { clear -E1 E2. revert o1 E1. induction s1 as [|c s1 IH]; simpl; intros o1 E1.
    - injection E1 as <-. assumption.
    - destruct (utf8_encode_cp c) as [b|]; [|discriminate].
      destruct (utf8_encode_octets s1) as [r|]; [|discriminate].
      injection E1 as <-. rewrite (IH r eq_refl). now rewrite app_assoc. }
  simpl. now rewrite of_octets_app.
Qed.


(** ** Decimal numerals: reading undoes printing *)

Lemma uint_digits_are_digits d : Forall is_digit (uint_digits d).
Proof.
  induction d; simpl; constructor; try assumption; unfold is_digit; lia.
Qed.

Lemma digit_is_ascii c : is_digit c -> is_ascii c.
Proof. unfold is_digit, is_ascii. lia. Qed.

Lemma repr_int_ascii z : Forall is_ascii (repr_int z).
Proof.
  unfold repr_int. destruct (Z.to_int z) as [d|d].
  - eapply Forall_impl; [apply uint_digits_are_digits | apply digit_is_ascii].
  - constructor; [unfold is_ascii; lia|].
    eapply Forall_impl; [apply uint_digits_are_digits | apply digit_is_ascii].
Qed.

Lemma uint_value_acc d acc :
  uint_value d (Z.pos acc) = Z.pos (Pos.of_uint_acc d acc).
Proof.
  revert acc. induction d; intros acc; simpl; try reflexivity;
    rewrite <- IHd; f_equal; lia.
Qed.

Lemma uint_value_0 d : uint_value d 0 = Z.of_N (Pos.of_uint d).
Proof.
  induction d; simpl; try reflexivity; try assumption;
    change (10 * 0 + ?k) with k; apply (uint_value_acc d).
Qed.

Lemma of_to_uint_value z :
  match Z.to_int z with
  | Decimal.Pos d => uint_value d 0 = z
  | Decimal.Neg d => - uint_value d 0 = z
  end.
Proof.
  pose proof (DecimalZ.of_to z) as H. unfold Z.of_int, Z.of_uint in H.
  destruct (Z.to_int z); rewrite uint_value_0; exact H.
Qed.

Lemma to_int_nonnil z :
  match Z.to_int z with Decimal.Pos d | Decimal.Neg d => d <> Nil end.
Proof.
  destruct z; simpl; try discriminate; apply Unsigned.to_uint_nonnil.
Qed.

Lemma digits_value_uint d acc :
  digits_value (uint_digits d) acc = Some (uint_value d acc).
Proof.
  revert acc. induction d; intros acc; simpl; try reflexivity; apply IHd.
Qed.

Lemma counter_value_bytes z : counter_value (counter_bytes z) = Some z.
Proof.
  unfold counter_value, counter_bytes.
  rewrite octets_of_octets
    by (eapply Forall_impl; [apply repr_int_ascii | apply ascii_is_octet]).
  remember (repr_int z) as s eqn:Hs.
  assert (match s with
          | c :: r => if c =? 45 then Z.opp <$> digits_value r 0
                      else digits_value s 0
          | [] => None
          end = Some z) as ->.
  { subst s. pose proof (of_to_uint_value z) as Hv. pose proof (to_int_nonnil z) as Hn.
    unfold repr_int. destruct (Z.to_int z) as [d|d].
    - rewrite <- Hv. destruct d; try congruence; simpl; apply digits_value_uint.
    - cbn [Z.eqb Pos.eqb]. rewrite digits_value_uint. simpl. now rewrite Hv. }
  rewrite bool_decide_eq_true_2; [reflexivity|]. now symmetry.
Qed.

Lemma scan_digits_uint d prev acc n :
  prev <> 95 ->
  scan_digits (uint_digits d) prev acc n
  = Some (uint_value d acc, (n + length (uint_digits d))%nat, []).
Proof.
  revert prev acc n.
  induction d; intros prev acc n Hp; simpl;
    try (rewrite IHd by lia; do 3 f_equal; lia).
  destruct (Z.eqb_spec prev 95); [contradiction|]. now rewrite Nat.add_0_r.
Qed.

Lemma uint_digits_cons d :
  d <> Nil -> exists c r, uint_digits d = c :: r /\ is_digit c.
Proof.
  intros Hd. pose proof (uint_digits_are_digits d) as H.
  destruct d; try congruence; simpl in *; inversion H; subst; eauto.
Qed.

Lemma digit_tests c :
  is_digit c ->
  Py_ISSPACE c = false /\ (c =? 43) = false /\ (c =? 45) = false /\ (c =? 95) = false.
Proof.
  unfold is_digit, Py_ISSPACE. intros H.
  repeat split; repeat (rewrite ?orb_false_iff, ?andb_false_iff); lia.
Qed.

Lemma parse_long_digits d :
  d <> Nil -> parse_long (uint_digits d) = Some (uint_value d 0).
Proof.
  intros Hd. destruct (uint_digits_cons d Hd) as (c & r & Heq & Hc).
  destruct (digit_tests c Hc) as (Hs & H43 & H45 & H95).
  unfold parse_long. rewrite Heq. cbn [skip_space]. rewrite Hs.
  cbn [head_is]. rewrite H43, H45. cbn [head_is]. rewrite H95.
  rewrite <- Heq, scan_digits_uint by lia.
  rewrite Heq. cbn [length Nat.add skip_space]. f_equal; lia.
Qed.

Lemma parse_long_minus_digits d :
  d <> Nil -> parse_long (45 :: uint_digits d) = Some (- uint_value d 0).
Proof.
  intros Hd. destruct (uint_digits_cons d Hd) as (c & r & Heq & Hc).
  destruct (digit_tests c Hc) as (Hs & H43 & H45 & H95).
  unfold parse_long. cbn [skip_space]. change (Py_ISSPACE 45) with false.
  cbn [head_is tail]. change (45 =? 43) with false. change (45 =? 45) with true.
  cbn match. rewrite Heq. cbn [head_is]. rewrite H95.
  rewrite <- Heq, scan_digits_uint by lia.
  rewrite Heq. cbn [length Nat.add skip_space]. f_equal; lia.
Qed.

Lemma forallb_ascii s : Forall is_ascii s -> forallb (fun c => c <? 128) s = true.
Proof.
  intros H. apply forallb_forall. intros c Hc.
  rewrite Forall_forall in H. specialize (H c). unfold is_ascii in H.
  apply Z.ltb_lt. apply H. now apply list_elem_of_In.
Qed.

(** [int(repr(z)) == z] *)
Lemma py_int_repr_int z : py_int (repr_int z) = Some z.
Proof.
  unfold py_int, transform_decimal_and_space.
  rewrite forallb_ascii by apply repr_int_ascii.
  pose proof (of_to_uint_value z) as Hv. pose proof (to_int_nonnil z) as Hn.
  unfold repr_int. destruct (Z.to_int z) as [d|d].
  - rewrite parse_long_digits by assumption. now rewrite Hv.
  - rewrite parse_long_minus_digits by assumption. now rewrite Hv.
Qed.

(** ** Hexadecimal and UUID strings *)

Lemma hexdigit_ascii d : 0 <= d < 16 -> is_ascii (hexdigit d).
Proof. unfold hexdigit, is_ascii. intros H. destruct (Z.ltb_spec d 10); lia. Qed.

Lemma hex_fixed_ascii w n : Forall is_ascii (hex_fixed w n).
Proof.
  induction w as [|w IH]; simpl; constructor; [|assumption].
  apply hexdigit_ascii. apply Z.mod_pos_bound. lia.
Qed.

Lemma hex_fixed_length w n : length (hex_fixed w n) = w.
Proof. induction w as [|w IH]; simpl; [reflexivity|]. now rewrite IH. Qed.

Lemma lit_ascii s : forallb (fun c => c <? 128) (lit s) = true -> Forall is_ascii (lit s).
Proof.
  intros H. rewrite forallb_forall in H. apply Forall_forall. intros c Hc.
  unfold is_ascii. split.
  - pose proof (octets_are_octets s) as Ho. rewrite Forall_forall in Ho.
    apply (Ho c Hc).
  - apply Z.ltb_lt, H. now apply list_elem_of_In.
Qed.

Lemma str_uuid_ascii u : Forall is_ascii (str_uuid u).
Proof.
  unfold str_uuid. pose proof (hex_fixed_ascii 32 u) as H.
  repeat (apply Forall_app; split);
    try (apply lit_ascii; reflexivity);
    repeat first [apply Forall_take | apply Forall_drop]; assumption.
Qed.

Lemma str_uuid_length u : length (str_uuid u) = 36%nat.
Proof.
  unfold str_uuid.
  rewrite !length_app, !length_take, !length_drop, hex_fixed_length. reflexivity.
Qed.

Lemma key_bytes_length u : String.length (key_bytes u) = 36%nat.
Proof. unfold key_bytes. now rewrite of_octets_length, str_uuid_length. Qed.

Lemma key_not_history u :
  key_bytes u <> counter_key /\ key_bytes u <> inputs_key /\ key_bytes u <> outputs_key.
Proof.
  repeat split; intros H; apply (f_equal String.length) in H;
    rewrite key_bytes_length in H; discriminate H.
Qed.

Lemma utf8_encode_str_uuid u : utf8_encode (str_uuid u) = Some (key_bytes u).
Proof. apply utf8_encode_ascii, str_uuid_ascii. Qed.


(** ** What [repr] prints can be sent *)

Lemma Scalar_forallb s : Scalar s <-> forallb is_scalar s = true.
Proof.
  unfold Scalar. induction s as [|c s IH]; simpl.
  - split; [reflexivity | constructor].
  - rewrite andb_true_iff, <- IH. split.
    + intros H. inversion H; subst. now split.
    + intros [Hc Hs]. now constructor.
Qed.

Lemma octet_is_scalar c : is_octet c -> is_scalar c = true.
Proof.
  unfold is_octet, is_scalar, is_surrogate. intros H.
  split_ltb; try lia; reflexivity.
Qed.

Lemma ascii_Scalar s : Forall is_ascii s -> Scalar s.
Proof.
  intros H. eapply Forall_impl; [exact H|].
  intros c Hc. apply octet_is_scalar, ascii_is_octet, Hc.
Qed.

Lemma octets_Scalar b : Scalar (octets b).
Proof.
  eapply Forall_impl; [apply octets_are_octets|]. intros c. apply octet_is_scalar.
Qed.

Lemma Scalar_encodes s : Scalar s -> is_Some (utf8_encode s).
Proof. intros H. apply utf8_encode_total, Scalar_forallb, H. Qed.

Lemma Scalar_flat_map (f : Z -> text) s :
  (forall c, c ∈ s -> Scalar (f c)) -> Scalar (flat_map f s).
Proof.
  induction s as [|c s IH]; simpl; intros H; [constructor|].
  apply Forall_app. split.
  - apply H. constructor.
  - apply IH. intros c' Hc'. apply H. now constructor.
Qed.

Ltac scalar_consts :=
  repeat first
    [ apply Forall_nil_2
    | apply Forall_cons_2; [reflexivity|]
    | apply ascii_Scalar, hex_fixed_ascii ].

Lemma repr_quote_cases s : repr_quote s = 34 \/ repr_quote s = 39.
Proof. unfold repr_quote. destruct (has 39 s && negb (has 34 s)); auto. Qed.

Lemma repr_str_char_Scalar q c :
  is_scalar c = true -> Scalar (repr_str_char q c).
Proof.
  intros Hc. unfold repr_str_char.
  repeat match goal with
         | |- context [if ?b then _ else _] => destruct b
         end;
    try (scalar_consts; fail);
    repeat (apply Forall_cons_2; [first [exact Hc | reflexivity]|]); scalar_consts.
Qed.

Lemma repr_str_Scalar s : Scalar s -> Scalar (repr_str s).
Proof.
  intros Hs. unfold repr_str.
  assert (is_scalar (repr_quote s) = true) as Hq
      by (destruct (repr_quote_cases s) as [-> | ->]; reflexivity).
  apply Forall_cons_2; [exact Hq|]. apply Forall_app. split.
  - apply Scalar_flat_map. intros c Hc. apply repr_str_char_Scalar.
    unfold Scalar in Hs. rewrite Forall_forall in Hs. now apply Hs.
  - now repeat constructor.
Qed.

Lemma repr_bytes_char_Scalar q c :
  is_octet c -> Scalar (repr_bytes_char q c).
Proof.
  intros Hc. pose proof (octet_is_scalar c Hc) as Hs. unfold repr_bytes_char.
  repeat match goal with
         | |- context [if ?b then _ else _] => destruct b
         end;
    try (scalar_consts; fail);
    repeat (apply Forall_cons_2; [first [exact Hs | reflexivity]|]); scalar_consts.
Qed.

Lemma repr_bytes_Scalar b : Scalar (repr_bytes b).
Proof.
  unfold repr_bytes.
  assert (is_scalar (repr_quote (octets b)) = true) as Hq
      by (destruct (repr_quote_cases (octets b)) as [-> | ->]; reflexivity).
  apply Forall_cons_2; [reflexivity|]. apply Forall_cons_2; [exact Hq|].
  apply Forall_app. split.
  - apply Scalar_flat_map. intros c Hc. apply repr_bytes_char_Scalar.
    pose proof (octets_are_octets b) as Ho. rewrite Forall_forall in Ho. now apply Ho.
  - now repeat constructor.
Qed.

Lemma py_repr_Scalar v : supported v = true -> Scalar (py_repr v).
Proof.
  destruct v as [|s|b|z|f]; simpl; intros H; try discriminate.
  - apply repr_str_Scalar, Scalar_forallb, H.
  - apply repr_bytes_Scalar.
  - apply ascii_Scalar, repr_int_ascii.
  - apply octets_Scalar.
Qed.

Lemma str_tuple_call_Scalar c :
  supported (call_data c) = true -> Scalar (str_tuple (call_args c)).
Proof.
  destruct c as [d|d]; cbn [call_data call_args str_tuple]; intros H.
  - apply Forall_app_2; [apply octets_Scalar|].
    apply Forall_app_2; [now apply py_repr_Scalar | apply octets_Scalar].
  - apply Forall_app_2; [apply octets_Scalar|]. apply octets_Scalar.
Qed.

Lemma supported_encodes v :
  supported v = true -> exists b, Encoder_encode v = Ok b.
Proof.
  intros H. pose proof (py_repr_Scalar v H) as Hr.
  destruct v as [|s|b|z|f]; simpl in *; try discriminate.
  - destruct (Scalar_encodes s) as [x ->]; [now apply Scalar_forallb|]. simpl. eauto.
  - eauto.
  - destruct (Scalar_encodes _ Hr) as [x ->]. simpl. eauto.
  - destruct (Scalar_encodes _ Hr) as [x ->]. simpl. eauto.
Qed.


(** ** The client's calls, one by one *)

Lemma bind_ok {A B} (m : M A) (k : A -> M B) w a w' :
  m w = (Ok a, w') -> bind m k w = k a w'.
Proof. unfold bind. now intros ->. Qed.

Lemma bind_raise {A B} (m : M A) (k : A -> M B) w e w' :
  m w = (Raise e, w') -> bind m k w = (Raise e, w').
Proof. unfold bind. now intros ->. Qed.

Lemma lift_ok {A} (r : result A) a w : r = Ok a -> lift r w = (Ok a, w).
Proof. unfold lift. now intros ->. Qed.

Lemma Redis_rpush_spec name value k v w :
  Encoder_encode name = Ok k -> Encoder_encode value = Ok v ->
  holds_list w k = true ->
  Redis_rpush name value w
  = (Ok (Z.of_nat (length (list_at w k)) + 1),
     mkWorld (<[k := RList (list_at w k ++ [v])]> (server w))
             (wire w ++ [RPUSH k v]) (entropy w) (drawn w) (stdout w)).
Proof.
  intros Hk Hv Hl. unfold Redis_rpush.
  rewrite (bind_ok _ _ w k w) by now apply lift_ok.
  rewrite (bind_ok _ _ w v w) by now apply lift_ok.
  unfold bind, send, holds_list, list_at in *. cbn [serve].
  destruct (server w !! k) as [[b|l]|]; try discriminate; reflexivity.
Qed.

Lemma Redis_incr_spec name k w :
  Encoder_encode name = Ok k ->
  holds_counter w k = true ->
  Redis_incr name w
  = (Ok (count_at w k + 1),
     mkWorld (<[k := RString (counter_bytes (count_at w k + 1))]> (server w))
             (wire w ++ [INCR k]) (entropy w) (drawn w) (stdout w)).
Proof.
  intros Hk Hc. unfold Redis_incr.
  rewrite (bind_ok _ _ w k w) by now apply lift_ok.
  unfold bind, send, holds_counter, count_at in *. cbn [serve].
  destruct (server w !! k) as [[b|l]|]; try discriminate; [|reflexivity].
  apply bool_decide_eq_true_1 in Hc. destruct Hc as [z Hz]. now rewrite Hz.
Qed.

Lemma Redis_set_spec name value k v w :
  Encoder_encode name = Ok k -> Encoder_encode value = Ok v ->
  Redis_set name value w
  = (Ok true,
     mkWorld (<[k := RString v]> (server w))
             (wire w ++ [SET k v]) (entropy w) (drawn w) (stdout w)).
Proof.
  intros Hk Hv. unfold Redis_set.
  rewrite (bind_ok _ _ w k w) by now apply lift_ok.
  rewrite (bind_ok _ _ w v w) by now apply lift_ok.
  reflexivity.
Qed.

Lemma Redis_get_spec name k w :
  Encoder_encode name = Ok k ->
  Redis_get name w = (got w k, asked w (GET k)).
Proof.
  intros Hk. unfold Redis_get.
  rewrite (bind_ok _ _ w k w) by now apply lift_ok.
  unfold bind, send, got, asked. cbn [serve].
  destruct (server w !! k) as [[b|l]|]; reflexivity.
Qed.

Lemma Redis_get_unencodable name e w :
  Encoder_encode name = Raise e -> Redis_get name w = (Raise e, w).
Proof.
  intros Hk. unfold Redis_get. apply bind_raise. unfold lift. now rewrite Hk.
Qed.

Lemma Redis_lrange_spec name k w :
  Encoder_encode name = Ok k ->
  holds_list w k = true ->
  Redis_lrange name 0 (-1) w = (Ok (list_at w k), asked w (LRANGE k 0 (-1))).
Proof.
  intros Hk Hl. unfold Redis_lrange.
  rewrite (bind_ok _ _ w k w) by now apply lift_ok.
  unfold bind, send, holds_list, list_at, asked in *. cbn [serve].
  destruct (server w !! k) as [[b|l]|]; try discriminate; [|reflexivity].
  assert (lrange l 0 (-1) = l) as ->; [|reflexivity].
  unfold lrange. cbn [Z.ltb Z.compare].
  destruct l as [|x l]; [reflexivity|].
  replace (Z.min _ _) with (Z.of_nat (length (x :: l)) - 1) by lia.
  assert (Z.of_nat (length (x :: l)) > 0) by (simpl; lia).
  destruct (Z.ltb_spec (Z.of_nat (length (x :: l)) - 1) 0); [lia|].
  destruct (Z.leb_spec (Z.of_nat (length (x :: l))) 0); [lia|].
  cbn [orb Z.to_nat drop].
  replace (Z.to_nat _) with (length (x :: l)) by lia.
  apply firstn_all.
Qed.


(** ** One call of [store] *)

Lemma encode_counter_key : Encoder_encode (PStr (qualname store_body)) = Ok counter_key.
Proof. reflexivity. Qed.

Lemma encode_inputs_key :
  Encoder_encode (PStr (qualname store_body ++ lit ":inputs")) = Ok inputs_key.
Proof. reflexivity. Qed.

Lemma encode_outputs_key :
  Encoder_encode (PStr (qualname store_body ++ lit ":outputs")) = Ok outputs_key.
Proof. reflexivity. Qed.

Lemma encode_key u : Encoder_encode (PStr (str_uuid u)) = Ok (key_bytes u).
Proof. simpl. now rewrite utf8_encode_str_uuid. Qed.

Lemma bind_data_call c : bind_data (call_args c) (call_kwargs c) = Some (call_data c).
Proof.
  destruct c as [d|d]; cbn [bind_data call_args call_kwargs call_data]; [reflexivity|].
  now rewrite bool_decide_eq_true_2.
Qed.

Lemma ready_parts w :
  ready w = true ->
  holds_counter w counter_key = true /\ holds_list w inputs_key = true
  /\ holds_list w outputs_key = true.
Proof.
  unfold ready. rewrite !andb_true_iff. tauto.
Qed.

Lemma store_spec w c input value :
  ready w = true ->
  Encoder_encode (PStr (str_tuple (call_args c))) = Ok input ->
  Encoder_encode (call_data c) = Ok value ->
  store c w = (Ok (PStr (str_uuid (next_uuid w))), stored w input value).
Proof.
  intros (Hc & Hi & Ho)%ready_parts Hin Hval.
  destruct (key_not_history (next_uuid w)) as (Nc & Ni & No).
  unfold store, Cache_store, call_history, count_calls.
  cbn [call qualname].
  erewrite bind_ok by (eapply Redis_rpush_spec; [apply encode_inputs_key | exact Hin | exact Hi]).
  erewrite bind_ok.
  2:{ erewrite bind_ok.
      2:{ apply Redis_incr_spec; [apply encode_counter_key|].
          unfold holds_counter in *. cbn [server].
          rewrite lookup_insert_ne by discriminate. exact Hc. }
      unfold store_body at 1. cbn [call]. rewrite bind_data_call.
      unfold uuid4, os_urandom16.
      unfold bind at 1. unfold bind at 1. cbn [ret].
      erewrite bind_ok by (apply Redis_set_spec; [apply encode_key | exact Hval]).
      reflexivity. }
  cbn [py_str].
  erewrite bind_ok.
  2:{ eapply Redis_rpush_spec; [apply encode_outputs_key | apply encode_key |].
      unfold holds_list in *. cbn [server drawn entropy].
      rewrite lookup_insert_ne by exact No.
      rewrite !lookup_insert_ne by discriminate. exact Ho. }
  unfold ret, stored, next_uuid, list_at, count_at. cbn [server wire entropy drawn stdout].
  rewrite !(lookup_insert_ne (M:=gmap string)) by first [discriminate | congruence].
  now rewrite <- !app_assoc.
Qed.


Lemma stored_inputs w i v : list_at (stored w i v) inputs_key = list_at w inputs_key ++ [i].
Proof.
  destruct (key_not_history (next_uuid w)) as (Nc & Ni & No).
  unfold list_at at 1, stored. cbn [server].
  rewrite lookup_insert_ne by discriminate.
  rewrite lookup_insert_ne by exact Ni.
  rewrite lookup_insert_ne by discriminate.
  now rewrite lookup_insert_eq.
Qed.

Lemma stored_outputs w i v :
  list_at (stored w i v) outputs_key = list_at w outputs_key ++ [key_bytes (next_uuid w)].
Proof.
  unfold list_at at 1, stored. cbn [server]. now rewrite lookup_insert_eq.
Qed.

Lemma stored_counter w i v :
  server (stored w i v) !! counter_key
  = Some (RString (counter_bytes (count_at w counter_key + 1))).
Proof.
  destruct (key_not_history (next_uuid w)) as (Nc & Ni & No).
  unfold stored. cbn [server].
  rewrite lookup_insert_ne by discriminate.
  rewrite lookup_insert_ne by exact Nc.
  now rewrite lookup_insert_eq.
Qed.

Lemma stored_count w i v :
  count_at (stored w i v) counter_key = count_at w counter_key + 1.
Proof.
  unfold count_at at 1. now rewrite stored_counter, counter_value_bytes.
Qed.

Lemma stored_value w i v :
  server (stored w i v) !! key_bytes (next_uuid w) = Some (RString v).
Proof.
  destruct (key_not_history (next_uuid w)) as (Nc & Ni & No).
  unfold stored. cbn [server].
  rewrite lookup_insert_ne by congruence.
  now rewrite lookup_insert_eq.
Qed.

Lemma stored_ready w i v : ready (stored w i v) = true.
Proof.
  destruct (key_not_history (next_uuid w)) as (Nc & Ni & No).
  unfold ready, holds_counter, holds_list.
  rewrite stored_counter, counter_value_bytes.
  unfold stored. cbn [server].
  rewrite lookup_insert_eq.
  rewrite lookup_insert_ne by discriminate.
  rewrite lookup_insert_ne by exact Ni.
  rewrite lookup_insert_ne by discriminate.
  rewrite lookup_insert_eq.
  rewrite bool_decide_eq_true_2 by eauto. reflexivity.
Qed.

Lemma stored_wire w i v :
  wire (stored w i v)
  = wire w ++ [RPUSH inputs_key i; INCR counter_key;
               SET (key_bytes (next_uuid w)) v; RPUSH outputs_key (key_bytes (next_uuid w))].
Proof. reflexivity. Qed.

(** A supported call returns, in any ready world. *)
Lemma store_returns w c :
  ready w = true -> supported (call_data c) = true ->
  exists input value,
    utf8_encode (str_tuple (call_args c)) = Some input
    /\ Encoder_encode (call_data c) = Ok value
    /\ store c w = (Ok (PStr (str_uuid (next_uuid w))), stored w input value).
Proof.
  intros Hr Hs.
  destruct (Scalar_encodes _ (str_tuple_call_Scalar c Hs)) as [input Hin].
  destruct (supported_encodes _ Hs) as [value Hval].
  exists input, value. split; [exact Hin|]. split; [exact Hval|].
  apply store_spec; [exact Hr | | exact Hval]. simpl. now rewrite Hin.
Qed.

(** ** Construction *)

Lemma Cache_init_spec w : Cache_init w = (Ok tt, flushed w).
Proof. reflexivity. Qed.

Lemma flushed_ready w : ready (flushed w) = true.
Proof. reflexivity. Qed.

(** ** A run of calls *)

Lemma count_incr_app k l1 l2 :
  count_incr k (l1 ++ l2) = (count_incr k l1 + count_incr k l2)%nat.
Proof.
  induction l1 as [|c l1 IH]; simpl; [reflexivity|].
  destruct c; try assumption. case_bool_decide; simpl; now rewrite IH.
Qed.

Lemma store_all_spec cs : forall w,
  ready w = true ->
  Forall (fun c => supported (call_data c) = true) cs ->
  exists keys w' ins outs sent,
    store_all cs w = (Ok keys, w')
    /\ ready w' = true
    /\ list_at w' inputs_key = list_at w inputs_key ++ ins
    /\ list_at w' outputs_key = list_at w outputs_key ++ outs
    /\ Forall2 logs_call cs ins
    /\ Forall2 logs_key keys outs
    /\ count_at w' counter_key = count_at w counter_key + Z.of_nat (length cs)
    /\ (cs <> [] ->
        server w' !! counter_key
        = Some (RString (counter_bytes (count_at w counter_key + Z.of_nat (length cs)))))
    /\ (cs = [] -> w' = w)
    /\ wire w' = wire w ++ sent
    /\ count_incr counter_key sent = length cs.
Proof.
  induction cs as [|c cs IH]; intros w Hr Hs.
  - exists [], w, [], [], []. simpl. rewrite !app_nil_r, Z.add_0_r.
    repeat split; try constructor; congruence.
  - apply Forall_cons in Hs as [Hc Hs].
    destruct (store_returns w c Hr Hc) as (input & value & Hin & Hval & Hstore).
    destruct (IH (stored w input value) (stored_ready _ _ _) Hs)
      as (keys & w' & ins & outs & sent & Hrun & Hr' & Hi & Ho & Fi & Fo & Hn & Hk & _ & Hw & Hcount).
    exists (PStr (str_uuid (next_uuid w)) :: keys), w', (input :: ins),
      (key_bytes (next_uuid w) :: outs),
      ([RPUSH inputs_key input; INCR counter_key;
        SET (key_bytes (next_uuid w)) value; RPUSH outputs_key (key_bytes (next_uuid w))] ++ sent).
    cbn [store_all]. rewrite (bind_ok _ _ _ _ _ Hstore), (bind_ok _ _ _ _ _ Hrun).
    rewrite stored_inputs in Hi. rewrite stored_outputs in Ho. rewrite stored_count in Hn.
    rewrite stored_wire in Hw.
    split; [reflexivity|]. split; [exact Hr'|].
    split; [now rewrite Hi, <- app_assoc|]. split; [now rewrite Ho, <- app_assoc|].
    split; [now constructor|].
    split; [constructor; [|exact Fo]; eexists; split; [reflexivity | apply utf8_encode_str_uuid]|].
    assert (count_at w' counter_key = count_at w counter_key + Z.of_nat (length (c :: cs))) as Hn'
        by (rewrite Hn; simpl length; lia).
    split; [exact Hn'|].
    split.
    { intros _. destruct cs as [|c' cs'].
      - destruct (IH (stored w input value) (stored_ready _ _ _) Hs)
          as (? & w2 & ? & ? & ? & Hrun2 & _ & _ & _ & _ & _ & _ & _ & Hsame & _).
        rewrite Hrun in Hrun2. injection Hrun2 as _ <-. rewrite (Hsame eq_refl).
        rewrite stored_counter. reflexivity.
      - rewrite Hk by discriminate. rewrite stored_count. do 3 f_equal. simpl length. lia. }
    split; [discriminate|].
    split; [now rewrite Hw, <- app_assoc|].
    rewrite count_incr_app, Hcount. reflexivity.
Qed.


(** ** Reading back *)

Lemma Cache_get_int_spec key k w :
  Encoder_encode key = Ok k ->
  Cache_get_int key w
  = (match got w k with Ok v => Ok (as_int v) | Raise e => Raise e end,
     asked w (GET k)).
Proof.
  intros Hk. unfold Cache_get_int, bind at 1. rewrite (Redis_get_spec _ _ _ Hk).
  destruct (got w k) as [v|e]; [|reflexivity].
  unfold try_except, bind, lift, decode_utf8, int_of_str, of_option, ret, as_int.
  destruct v as [|s|b|z|f]; try reflexivity.
  destruct (utf8_decode b) as [s|]; [|reflexivity].
  destruct (py_int s); reflexivity.
Qed.

Lemma Cache_get_str_spec key k w :
  Encoder_encode key = Ok k ->
  Cache_get_str key w
  = (match got w k with Ok v => decode_utf8 v | Raise e => Raise e end,
     asked w (GET k)).
Proof.
  intros Hk. unfold Cache_get_str, bind. rewrite (Redis_get_spec _ _ _ Hk).
  destruct (got w k) as [v|e]; reflexivity.
Qed.

Lemma Cache_get_raw_spec key k w :
  Encoder_encode key = Ok k ->
  Cache_get key None w = (got w k, asked w (GET k)).
Proof.
  intros Hk. unfold Cache_get, bind. rewrite (Redis_get_spec _ _ _ Hk).
  destruct (got w k) as [v|e]; reflexivity.
Qed.

Lemma got_string w k b : server w !! k = Some (RString b) -> got w k = Ok (PBytes b).
Proof. unfold got. now intros ->. Qed.

Lemma got_absent w k : server w !! k = None -> got w k = Ok PNone.
Proof. unfold got. now intros ->. Qed.

Lemma session_spec w cs :
  Forall (fun c => supported (call_data c) = true) cs ->
  exists keys w' sent,
    session cs w = (Ok keys, w')
    /\ ready w' = true
    /\ Forall2 logs_call cs (list_at w' inputs_key)
    /\ Forall2 logs_key keys (list_at w' outputs_key)
    /\ count_at w' counter_key = Z.of_nat (length cs)
    /\ match cs with
       | [] => server w' !! counter_key = None
       | _ => server w' !! counter_key
              = Some (RString (counter_bytes (Z.of_nat (length cs))))
       end
    /\ wire w' = wire w ++ FLUSHDB :: sent
    /\ count_incr counter_key sent = length cs.
Proof.
  intros Hs.
  destruct (store_all_spec cs (flushed w) (flushed_ready w) Hs)
    as (keys & w' & ins & outs & sent & Hrun & Hr & Hi & Ho & Fi & Fo & Hn & Hk & Hnil & Hw & Hc).
  exists keys, w', sent. unfold session.
  rewrite (bind_ok _ _ _ _ _ (Cache_init_spec w)), Hrun.
  split; [reflexivity|]. split; [exact Hr|].
  split; [now rewrite Hi|]. split; [now rewrite Ho|].
  split; [rewrite Hn; reflexivity|].
  split.
  - destruct cs as [|c cs]; [now rewrite (Hnil eq_refl) | now rewrite Hk].
  - split; [|exact Hc]. rewrite Hw. cbn [flushed wire]. now rewrite <- app_assoc.
Qed.


Lemma as_int_counter n : as_int (PBytes (counter_bytes n)) = n.
Proof.
  unfold as_int, counter_bytes.
  rewrite utf8_decode_ascii by apply repr_int_ascii.
  now rewrite py_int_repr_int.
Qed.

Lemma get_int_counter w n :
  server w !! counter_key = Some (RString (counter_bytes n)) ->
  Cache_get_int (PStr (qualname Cache_store)) w = (Ok n, asked w (GET counter_key)).
Proof.
  intros H. rewrite (Cache_get_int_spec _ counter_key) by reflexivity.
  now rewrite (got_string _ _ _ H), as_int_counter.
Qed.

Lemma store_all_length cs : forall w keys w',
  store_all cs w = (Ok keys, w') -> length keys = length cs.
Proof.
  induction cs as [|c cs IH]; intros w keys w' H; cbn [store_all] in H.
  - injection H as <- _. reflexivity.
  - unfold bind in H. destruct (store c w) as [[k|e] w1]; [|discriminate].
    destruct (store_all cs w1) as [[ks|e] w2] eqn:Hrest; [|discriminate].
    injection H as <- _. simpl. f_equal. exact (IH _ _ _ Hrest).
Qed.

(** * The statements of the specification *)






(** C5: [get_int] returns 0, and raises nothing, when the key is absent,
    when the stored bytes are not valid UTF-8, and when the decoded text
    does not read as an integer. *)
Theorem get_int_falls_back_to_zero (w : World) (key : pyval) (k : bytes) :
  Encoder_encode key = Ok k ->
  (server w !! k = None
   \/ exists b, server w !! k = Some (RString b)
                /\ (utf8_decode b = None
                    \/ exists s, utf8_decode b = Some s /\ py_int s = None)) ->
  Cache_get_int key w = (Ok 0, asked w (GET k)).
Proof.
  intros Hk H. rewrite (Cache_get_int_spec _ _ _ Hk).
  destruct H as [H | (b & H & Hb)].
  - now rewrite (got_absent _ _ H).
  - rewrite (got_string _ _ _ H). unfold as_int.
    destruct Hb as [-> | (s & -> & ->)]; reflexivity.
Qed.

(** C6: [get_str] of a key that is absent from the store raises (the
    value is [None], which has no [decode]); it returns no string. *)
Theorem get_str_of_absent_key_raises (w : World) (key : pyval) (k : bytes) :
  Encoder_encode key = Ok k ->
  server w !! k = None ->
  Cache_get_str key w = (Raise AttributeError, asked w (GET k)).
Proof.
  intros Hk H. rewrite (Cache_get_str_spec _ _ _ Hk). now rewrite (got_absent _ _ H).
Qed.

(** C10: for an absent key, [get] with a function returns what the
    function makes of [None] (and raises when the function does); [get]
    without a function returns [None]. *)
Theorem get_applies_fn_to_none (w : World) (key : pyval) (k : bytes)
    (fn : pyval -> M pyval) :
  Encoder_encode key = Ok k ->
  server w !! k = None ->
  Cache_get key (Some fn) w = fn PNone (asked w (GET k))
  /\ Cache_get key None w = (Ok PNone, asked w (GET k)).
Proof.
  intros Hk H. split.
  - unfold Cache_get, bind. rewrite (Redis_get_spec _ _ _ Hk).
    now rewrite (got_absent _ _ H).
  - rewrite (Cache_get_raw_spec _ _ _ Hk). now rewrite (got_absent _ _ H).
Qed.

(** C8: constructing the cache sends FLUSHDB and leaves the store empty,
    whatever it held: after any keys were set and a cache is constructed
    again, no key of the store remains and [get] of any key finds
    nothing. *)
Theorem construction_flushes_the_store (w : World) (sets : list (pyval * pyval)) :
  let before := after (Cache_init ;;;
                       for_each sets (fun kv => Redis_set (fst kv) (snd kv) ;;; ret tt)) w in
  exists w',
    Cache_init before = (Ok tt, w')
    /\ wire w' = wire before ++ [FLUSHDB]
    /\ server w' = ∅
    /\ (forall k, server w' !! k = None)
    /\ (forall key k, Encoder_encode key = Ok k ->
          fst (Cache_get key None w') = Ok PNone).
Proof.
  intros before. exists (flushed before).
  split; [apply Cache_init_spec|]. split; [reflexivity|]. split; [reflexivity|].
  split; [intros k; apply lookup_empty|].
  intros key k Hk. rewrite (Cache_get_raw_spec _ _ _ Hk). reflexivity.
Qed.

(** C9: [list_all] of no collection is the empty list; [list_all] of a
    collection is every document of the collection, in the collection's
    order. *)
Theorem list_all_lists_every_document (Document : Type) :
  list_all (@None (Collection Document)) = []
  /\ forall coll : Collection Document, list_all (Some coll) = documents coll.
Proof.
  split; [reflexivity|]. intros [docs]. unfold list_all, Collection_find.
  cbn [documents]. induction docs as [|d docs IH]; simpl; [reflexivity|]. now rewrite IH.
Qed.


(** ** Replay *)

Lemma replay_line_spec f io w :
  replay_line f io w = (Ok tt, printed w [trace_line f io]).
Proof.
  destruct io as [i o].
  unfold replay_line, bind, try_except, lift, decode_utf8, of_option, ret, print,
    trace_line, shown, printed. cbn [fst snd].
  destruct (utf8_decode i), (utf8_decode o); reflexivity.
Qed.

Lemma for_each_replay_line f l : forall w,
  for_each l (replay_line f) w = (Ok tt, printed w (map (trace_line f) l)).
Proof.
  induction l as [|io l IH]; intros w; cbn [for_each map].
  - unfold ret, printed. rewrite app_nil_r. now destruct w.
  - rewrite (bind_ok _ _ _ _ _ (replay_line_spec f io w)), IH.
    unfold printed. cbn [server wire entropy drawn stdout].
    now rewrite <- app_assoc.
Qed.

Lemma encode_suffixed f k suffix :
  utf8_encode f = Some k -> Forall is_ascii (lit suffix) ->
  Encoder_encode (PStr (f ++ lit suffix)) = Ok (k +:+ suffix)%string.
Proof.
  intros Hf Hs. cbn [Encoder_encode].
  rewrite (utf8_encode_app f (lit suffix) k suffix Hf).
  - reflexivity.
  - rewrite (utf8_encode_ascii _ Hs). unfold lit. now rewrite of_octets_octets.
Qed.

Lemma replay_spec w fn k :
  utf8_encode (qualname fn) = Some k ->
  holds_string w k = true ->
  holds_list w (k +:+ ":inputs")%string = true ->
  holds_list w (k +:+ ":outputs")%string = true ->
  exists v sent,
    got w k = Ok v
    /\ replay fn w
       = (Ok tt,
          mkWorld (server w) (wire w ++ sent) (entropy w) (drawn w)
            (stdout w
             ++ (qualname fn ++ lit " was called " ++ shown_count v ++ lit " times:")
             :: map (trace_line (qualname fn))
                  (zip (list_at w (k +:+ ":inputs")%string)
                       (list_at w (k +:+ ":outputs")%string)))).
Proof.
  intros Hk Hs Hi Ho.
  assert (exists v, got w k = Ok v) as [v Hv].
  { unfold got, holds_string in *. destruct (server w !! k) as [[b|l]|]; eauto; discriminate. }
  exists v, [GET k; LRANGE (k +:+ ":inputs")%string 0 (-1);
             LRANGE (k +:+ ":outputs")%string 0 (-1)].
  split; [exact Hv|].
  unfold replay.
  erewrite bind_ok.
  2:{ rewrite (Redis_get_spec (PStr (qualname fn)) k)
        by (cbn [Encoder_encode]; now rewrite Hk).
      now rewrite Hv. }
  erewrite (bind_ok _ _ _ (if v is PBytes b then
                             if utf8_decode b is Some s then PStr s else PInt 0
                           else PInt 0)).
  2:{ unfold try_except, bind, lift, decode_utf8, of_option, ret.
      destruct v as [|s|b|z|f]; try reflexivity. destruct (utf8_decode b); reflexivity. }
  assert (py_str (if v is PBytes b then
                    if utf8_decode b is Some s then PStr s else PInt 0
                  else PInt 0) = shown_count v) as ->.
  { destruct v as [|s|b|z|f]; try reflexivity. simpl. destruct (utf8_decode b); reflexivity. }
  erewrite bind_ok by reflexivity.
  erewrite bind_ok.
  2:{ apply (Redis_lrange_spec _ (k +:+ ":inputs")%string).
      - apply encode_suffixed; [exact Hk | apply lit_ascii; reflexivity].
      - exact Hi. }
  erewrite bind_ok.
  2:{ apply (Redis_lrange_spec _ (k +:+ ":outputs")%string).
      - apply encode_suffixed; [exact Hk | apply lit_ascii; reflexivity].
      - exact Ho. }
  rewrite for_each_replay_line.
  unfold printed, asked, list_at. cbn [server wire entropy drawn stdout].
  rewrite <- !app_assoc. reflexivity.
Qed.

(** C7: [replay] pairs the entries of the inputs list and of the outputs
    list by position, as many pairs as the shorter list has entries, and
    prints for each pair, after the header, the function's name, the
    input in parentheses behind a star, an arrow and the output; an entry
    that is not UTF-8 prints as the empty string and the replay goes on. *)
Theorem replay_zips_the_logs (w : World) (fn : Method) (k : bytes) :
  utf8_encode (qualname fn) = Some k ->
  holds_string w k = true ->
  holds_list w (k +:+ ":inputs")%string = true ->
  holds_list w (k +:+ ":outputs")%string = true ->
  let ins := list_at w (k +:+ ":inputs")%string in
  let outs := list_at w (k +:+ ":outputs")%string in
  exists header lines w',
    replay fn w = (Ok tt, w')
    /\ stdout w' = stdout w ++ header :: lines
    /\ length lines = Nat.min (length ins) (length outs)
    /\ (forall n i o, ins !! n = Some i -> outs !! n = Some o ->
          lines !! n
          = Some (qualname fn ++ lit "(*" ++ default [] (utf8_decode i)
                  ++ lit ") -> " ++ default [] (utf8_decode o))).
Proof.
  intros Hk Hs Hi Ho ins outs.
  destruct (replay_spec w fn k Hk Hs Hi Ho) as (v & sent & _ & Hrun).
  eexists _, (map (trace_line (qualname fn)) (zip ins outs)), _.
  split; [exact Hrun|]. split; [reflexivity|]. split.
  - rewrite length_map. apply length_zip_with.
  - intros n i o Hn Ho'. rewrite list_lookup_fmap.
    assert (zip ins outs !! n = Some (i, o)) as ->; [|reflexivity].
    rewrite lookup_zip_with. now rewrite Hn, Ho'.
Qed.


(** * Further properties of the code *)

(** ** The decorators, around any method *)


(** X2: when the key named after the method holds a list, or a string
    that is not a counter, the method decorated with [count_calls] raises
    the server's error and the method itself is never run: only INCR was
    sent. *)
Theorem count_calls_blocks_on_a_bad_counter (method : Method)
    (args : list pyval) (kwargs : list (text * pyval)) (w : World) (k : bytes) :
  utf8_encode (qualname method) = Some k ->
  holds_counter w k = false ->
  exists msg,
    call (count_calls method) args kwargs w
    = (Raise (ResponseError msg), asked w (INCR k)).
Proof.
  intros Hk Hc. unfold count_calls. cbn [call].
  assert (Encoder_encode (PStr (qualname method)) = Ok k) as He
      by (cbn [Encoder_encode]; now rewrite Hk).
  unfold holds_counter in Hc.
  destruct (server w !! k) as [[b|l]|] eqn:Hl; try discriminate.
  - exists NOT_AN_INTEGER. apply bind_raise. unfold Redis_incr.
    rewrite (bind_ok _ _ w k w) by now apply lift_ok.
    unfold bind, send, asked. cbn [serve]. rewrite Hl.
    destruct (counter_value b) as [z|] eqn:Hz; [|reflexivity].
    rewrite bool_decide_eq_true_2 in Hc by eauto. discriminate.
  - exists WRONGTYPE. apply bind_raise. unfold Redis_incr.
    rewrite (bind_ok _ _ w k w) by now apply lift_ok.
    unfold bind, send, asked. cbn [serve]. now rewrite Hl.
Qed.




(** ** [store] *)


(** X6: a call of [store] with a supported value writes four keys and no
    other: the counter, the two lists and the fresh key.  Every other key
    of the store keeps what it held. *)
Theorem store_leaves_other_keys_alone (w : World) (c : StoreCall) (k : bytes) :
  ready w = true ->
  supported (call_data c) = true ->
  k <> counter_key -> k <> inputs_key -> k <> outputs_key ->
  k <> key_bytes (next_uuid w) ->
  server (after (store c) w) !! k = server w !! k.
Proof.
  intros Hr Hs Nc Ni No Nk.
  destruct (store_returns w c Hr Hs) as (input & value & _ & _ & Hstore).
  unfold after. rewrite Hstore. cbn [snd]. unfold stored. cbn [server].
  now rewrite !lookup_insert_ne by congruence.
Qed.





(** ** The accessors *)

(** X10: what [get_str] does for each state of the key: it raises
    [AttributeError] for an absent key, the server's WRONGTYPE error for a
    key that holds a list and [UnicodeDecodeError] for bytes that are not
    UTF-8 (it has no fallback), and returns the decoded text otherwise. *)
Theorem get_str_by_cases (w : World) (key : pyval) (k : bytes) :
  Encoder_encode key = Ok k ->
  fst (Cache_get_str key w)
  = match server w !! k with
    | None => Raise AttributeError
    | Some (RList _) => Raise (ResponseError WRONGTYPE)
    | Some (RString b) =>
        match utf8_decode b with
        | Some s => Ok s
        | None => Raise UnicodeDecodeError
        end
    end.
Proof.
  intros Hk. rewrite (Cache_get_str_spec _ _ _ Hk). unfold got. cbn [fst].
  destruct (server w !! k) as [[b|l]|]; reflexivity.
Qed.

(** X11: [get_int] raises in one case only, a key that holds a list (the
    GET is outside its [try]); for an absent key and for any stored
    string it returns an integer. *)
Theorem get_int_raises_only_on_a_list (w : World) (key : pyval) (k : bytes) :
  Encoder_encode key = Ok k ->
  match server w !! k with
  | Some (RList _) => fst (Cache_get_int key w) = Raise (ResponseError WRONGTYPE)
  | _ => exists n, fst (Cache_get_int key w) = Ok n
  end.
Proof.
  intros Hk. rewrite (Cache_get_int_spec _ _ _ Hk). unfold got. cbn [fst].
  destruct (server w !! k) as [[b|l]|]; eauto.
Qed.

(** X12: the two utility methods are [get] with a function: [get_str] is
    [get] with the UTF-8 decoder and [get_int] is [get] with the guarded
    [int] conversion, for every key and every state of the store. *)
Theorem accessors_are_get_with_a_function (w : World) (key : pyval) :
  Cache_get key (Some decode_callable) w = as_value PStr (Cache_get_str key w)
  /\ Cache_get key (Some int_callable) w = as_value PInt (Cache_get_int key w).
Proof.
  unfold Cache_get, Cache_get_str, Cache_get_int, decode_callable, int_callable,
    as_value, bind, try_except, lift, ret.
  destruct (Redis_get key w) as [[v|e] w1]; [|split; reflexivity].
  destruct (decode_utf8 v) as [s|e]; [|split; reflexivity].
  destruct (int_of_str s); split; reflexivity.
Qed.

(** ** [replay] *)

Lemma read_only_bind {A B} (m : M A) (k : A -> M B) :
  read_only m -> (forall a, read_only (k a)) -> read_only (bind m k).
Proof.
  intros Hm Hk w. specialize (Hm w). unfold after, bind in *.
  destruct (m w) as [[a|e] w1]; cbn [snd] in *; [|exact Hm].
  rewrite <- Hm. apply Hk.
Qed.

Lemma read_only_try_except {A} (m : M A) (h : exn -> M A) :
  read_only m -> (forall e, read_only (h e)) -> read_only (try_except m h).
Proof.
  intros Hm Hh w. specialize (Hm w). unfold after, try_except in *.
  destruct (m w) as [[a|e] w1]; cbn [snd] in *; [exact Hm|].
  rewrite <- Hm. apply Hh.
Qed.

Lemma read_only_pure {A} (r : result A) : read_only (lift r).
Proof. intros w. reflexivity. Qed.

Lemma read_only_ret {A} (a : A) : read_only (ret a).
Proof. intros w. reflexivity. Qed.

Lemma read_only_raise {A} (e : exn) : read_only (@raise A e).
Proof. intros w. reflexivity. Qed.

Lemma read_only_print line : read_only (print line).
Proof. intros w. reflexivity. Qed.

Lemma read_only_get name : read_only (Redis_get name).
Proof.
  unfold Redis_get. apply read_only_bind; [apply read_only_pure|]. intros k w.
  unfold after, bind, send. cbn [serve].
  destruct (server w !! k) as [[b|l]|]; reflexivity.
Qed.

Lemma read_only_lrange name start stop : read_only (Redis_lrange name start stop).
Proof.
  unfold Redis_lrange. apply read_only_bind; [apply read_only_pure|]. intros k w.
  unfold after, bind, send. cbn [serve].
  destruct (server w !! k) as [[b|l]|]; reflexivity.
Qed.

Lemma read_only_for_each {A} (l : list A) (body : A -> M unit) :
  (forall a, read_only (body a)) -> read_only (for_each l body).
Proof.
  intros Hb. induction l as [|a l IH]; cbn [for_each]; [apply read_only_ret|].
  apply read_only_bind; [apply Hb | intros _; exact IH].
Qed.

(** X13: [replay] only reads: whatever the store holds and whichever
    method it is given, also when it raises, the store is afterwards
    exactly what it was. *)
Theorem replay_leaves_the_store_unchanged (fn : Method) (w : World) :
  server (after (replay fn) w) = server w.
Proof.
  revert w. change (read_only (replay fn)). unfold replay.
  apply read_only_bind; [apply read_only_get|]. intros n_calls.
  apply read_only_bind.
  { apply read_only_try_except; [|intros e; apply read_only_ret].
    apply read_only_bind; [apply read_only_pure | intros s; apply read_only_ret]. }
  intros n. apply read_only_bind; [apply read_only_print|]. intros _.
  apply read_only_bind; [apply read_only_lrange|]. intros ins.
  apply read_only_bind; [apply read_only_lrange|]. intros outs.
  apply read_only_for_each. intros [i o]. unfold replay_line.
  apply read_only_bind.
  { apply read_only_try_except; [apply read_only_pure | intros e; apply read_only_ret]. }
  intros i'. apply read_only_bind.
  { apply read_only_try_except; [apply read_only_pure | intros e; apply read_only_ret]. }
  intros o'. apply read_only_print.
Qed.

Lemma replay_absent w fn k :
  utf8_encode (qualname fn) = Some k ->
  server w !! k = None ->
  server w !! (k +:+ ":inputs")%string = None ->
  server w !! (k +:+ ":outputs")%string = None ->
  exists w',
    replay fn w = (Ok tt, w')
    /\ server w' = server w
    /\ stdout w' = stdout w ++ [qualname fn ++ lit " was called 0 times:"].
Proof.
  intros Hk Hc Hi Ho.
  destruct (replay_spec w fn k Hk) as (v & sent & Hv & Hrun);
    try (unfold holds_string, holds_list; now rewrite ?Hc, ?Hi, ?Ho).
  rewrite (got_absent _ _ Hc) in Hv. injection Hv as <-.
  eexists. split; [exact Hrun|]. split; [reflexivity|]. cbn [stdout].
  unfold list_at. now rewrite Hi, Ho.
Qed.

(** X14: for a method that was never called (its counter key and its two
    list keys are absent) [replay] prints one line and no more: the
    header, with the count 0. *)
Theorem replay_of_an_uncalled_method (w : World) (fn : Method) (k : bytes) :
  utf8_encode (qualname fn) = Some k ->
  server w !! k = None ->
  server w !! (k +:+ ":inputs")%string = None ->
  server w !! (k +:+ ":outputs")%string = None ->
  exists w',
    replay fn w = (Ok tt, w')
    /\ stdout w' = stdout w ++ [qualname fn ++ lit " was called 0 times:"].
Proof.
  intros Hk Hc Hi Ho.
  destruct (replay_absent w fn k Hk Hc Hi Ho) as (w' & Hrun & _ & Hout).
  exists w'. split; assumption.
Qed.

Lemma store_all_quiet cs : forall w,
  ready w = true ->
  Forall (fun c => supported (call_data c) = true) cs ->
  stdout (after (store_all cs) w) = stdout w.
Proof.
  induction cs as [|c cs IH]; intros w Hr Hs; [reflexivity|].
  apply Forall_cons in Hs as [Hc Hs].
  destruct (store_returns w c Hr Hc) as (input & value & _ & _ & Hstore).
  specialize (IH (stored w input value) (stored_ready _ _ _) Hs).
  unfold after in *. cbn [store_all]. rewrite (bind_ok _ _ _ _ _ Hstore).
  unfold bind at 1. destruct (store_all cs (stored w input value)) as [[ks|e] w2];
    cbn [snd] in *; exact IH.
Qed.

Lemma trace_lines_of_a_run f cs keys ins outs :
  Forall2 logs_call cs ins -> Forall2 logs_key keys outs ->
  map (trace_line f) (zip ins outs)
  = zip_with (fun c key => f ++ lit "(*" ++ str_tuple (call_args c)
                             ++ lit ") -> " ++ py_str key) cs keys.
Proof.
  intros Fi. revert keys outs.
  induction Fi as [|c i cs ins Hc Fi IH]; intros keys outs Fo; [reflexivity|].
  destruct Fo as [|key o keys outs (k & -> & Hk) Fo]; [reflexivity|].
  cbn [zip_with map]. rewrite (IH _ _ Fo). f_equal.
  unfold trace_line, shown. cbn [fst snd py_str].
  unfold logs_call in Hc.
  now rewrite (utf8_round_trip _ _ Hc), (utf8_round_trip _ _ Hk).
Qed.


(** X16: constructing a cache erases the history of every method: right
    after construction, whatever the store held before, [replay] prints
    the header with the count 0 and nothing else, and [get_int] of the
    method's counter is 0. *)
Theorem construction_erases_the_history (w : World) (fn : Method) (k : bytes) :
  utf8_encode (qualname fn) = Some k ->
  exists w',
    (Cache_init ;;; replay fn) w = (Ok tt, w')
    /\ stdout w' = stdout w ++ [qualname fn ++ lit " was called 0 times:"]
    /\ fst (Cache_get_int (PStr (qualname fn)) w') = Ok 0.
Proof.
  intros Hk.
  destruct (replay_absent (flushed w) fn k Hk) as (w' & Hrun & Hsrv & Hout);
    try apply lookup_empty.
  exists w'. rewrite (bind_ok _ _ _ _ _ (Cache_init_spec w)).
  split; [exact Hrun|]. split; [exact Hout|].
  rewrite (Cache_get_int_spec _ k) by (cbn [Encoder_encode]; now rewrite Hk).
  unfold got. rewrite Hsrv. reflexivity.
Qed.

End Interpreter.

Arguments PNone {float}.
Arguments PStr {float} s.
Arguments PBytes {float} b.
Arguments PInt {float} z.
Arguments PFloat {float} f.
Arguments ByPosition {float} data.
Arguments ByKeyword {float} data.

(** * The statements at concrete inputs

    The code run with the concrete interpreter, from [fresh_world]. *)

Abbreviation run_store := (store Z sample_float_repr sample_printable).
Abbreviation run_session := (session Z sample_float_repr sample_printable).
Abbreviation run_get := (Cache_get Z sample_float_repr sample_printable).
Abbreviation run_get_str := (Cache_get_str Z sample_float_repr sample_printable).
Abbreviation run_get_int :=
  (Cache_get_int Z sample_float_repr sample_printable sample_space sample_decimal).
Abbreviation run_replay := (replay Z sample_float_repr sample_printable).
Abbreviation the_store_method := (Cache_store Z sample_float_repr sample_printable).
Abbreviation is_supported := (fun c => supported Z (call_data Z c) = true).
Abbreviation foo_then_bar :=
  [ByPosition (PStr (lit "foo")); ByPosition (PStr (lit "bar"))].






Lemma get_int_falls_back_to_zero_witness :
  Encoder_encode Z sample_float_repr sample_printable (PStr (lit "missing")) = Ok "missing"
  /\ server fresh_world !! "missing" = None
  /\ run_get_int (PStr (lit "missing")) fresh_world
     = (Ok 0, asked fresh_world (GET "missing")).
Proof.
  split; [reflexivity|]. split; [reflexivity|].
  apply (get_int_falls_back_to_zero Z sample_float_repr sample_printable
           sample_space sample_decimal fresh_world (PStr (lit "missing")) "missing").
  - reflexivity.
  - left. reflexivity.
Defined.

Lemma get_str_of_absent_key_raises_witness :
  Encoder_encode Z sample_float_repr sample_printable (PStr (lit "missing")) = Ok "missing"
  /\ server fresh_world !! "missing" = None
  /\ run_get_str (PStr (lit "missing")) fresh_world
     = (Raise AttributeError, asked fresh_world (GET "missing")).
Proof.
  split; [reflexivity|]. split; [reflexivity|].
  apply (get_str_of_absent_key_raises Z sample_float_repr sample_printable
           fresh_world (PStr (lit "missing")) "missing"); reflexivity.
Defined.

(** [lambda d: d.decode("utf-8")], the function the exercise passes to
    [get]. *)
Abbreviation decode_fn :=
  (fun d : pyval Z =>
     match decode_utf8 Z d with
     | Ok s => ret (PStr s)
     | Raise e => raise e
     end).

Lemma get_applies_fn_to_none_witness :
  Encoder_encode Z sample_float_repr sample_printable (PStr (lit "missing")) = Ok "missing"
  /\ server fresh_world !! "missing" = None
  /\ run_get (PStr (lit "missing")) (Some decode_fn) fresh_world
     = (Raise AttributeError, asked fresh_world (GET "missing"))
  /\ run_get (PStr (lit "missing")) None fresh_world
     = (Ok PNone, asked fresh_world (GET "missing")).
Proof.
  split; [reflexivity|]. split; [reflexivity|].
  exact (get_applies_fn_to_none Z sample_float_repr sample_printable
           fresh_world (PStr (lit "missing")) "missing" decode_fn eq_refl eq_refl).
Defined.

Lemma replay_zips_the_logs_witness :
  utf8_encode (lit "Cache.store") = Some "Cache.store"
  /\ holds_string drifted_world "Cache.store" = true
  /\ holds_list drifted_world "Cache.store:inputs" = true
  /\ holds_list drifted_world "Cache.store:outputs" = true
  /\ exists header lines w',
       run_replay the_store_method drifted_world = (Ok tt, w')
       /\ stdout w' = header :: lines
       /\ length lines = 2%nat
       /\ lines !! 1%nat = Some (lit "Cache.store(*) -> k2").
Proof.
  split; [reflexivity|]. split; [reflexivity|]. split; [reflexivity|].
  split; [reflexivity|].
  destruct (replay_zips_the_logs Z sample_float_repr sample_printable
              drifted_world the_store_method "Cache.store"
              eq_refl eq_refl eq_refl eq_refl)
    as (header & lines & w' & Hrun & Hout & Hlen & Hline).
  exists header, lines, w'. split; [exact Hrun|]. split; [exact Hout|].
  split; [exact Hlen|].
  exact (Hline 1%nat (of_octets [255]) "k2" eq_refl eq_refl).
Defined.

(** * Outside the hypotheses

    What the code does where the theorems above do not reach. *)

(** A [str] with a lone surrogate cannot be sent: the call raises at SET,
    after the input was logged and the counter raised, and no output is
    logged. *)
Example store_of_a_lone_surrogate :
  let r := run_store (ByPosition (PStr [0xD800])) fresh_world in
  fst r = Raise UnicodeEncodeError
  /\ length (list_at (snd r) inputs_key) = 1%nat
  /\ length (list_at (snd r) outputs_key) = 0%nat
  /\ count_at (snd r) counter_key = 1.
Proof. vm_compute. repeat split. Qed.

(** [GET] of a key that holds a list is answered with an error, which
    [get_int] does not catch: the call to the store is outside its
    [try]. *)
Example get_int_of_a_list_raises :
  fst (run_get_int (PStr (lit "Cache.store:inputs")) drifted_world)
  = Raise (ResponseError WRONGTYPE).
Proof. vm_compute. reflexivity. Qed.

(** The scenario of the specification: two calls, then the reads and the
    replay. *)
Example scenario_foo_bar :
  let r := (run_session foo_then_bar ;;; run_replay the_store_method) fresh_world in
  fst r = Ok tt
  /\ map of_octets (stdout (snd r))
     = ["Cache.store was called 2 times:";
        "Cache.store(*('foo',)) -> 9e3779b9-7f4a-4c15-b39c-c0605cedc835";
        "Cache.store(*('bar',)) -> 3c6ef372-fe94-482b-a739-80c0b9db906a"]%string.
Proof. vm_compute. repeat split. Qed.

(** * The further properties at concrete inputs *)

Abbreviation the_store_body := (store_body Z sample_float_repr sample_printable).
Abbreviation run_call := (call Z).
Abbreviation counting := (count_calls Z sample_float_repr sample_printable).
Abbreviation recording := (call_history Z sample_float_repr sample_printable).
Abbreviation foo := (@PStr Z (lit "foo")).
Abbreviation bar := (@PStr Z (lit "bar")).
(** A method that returns the integer 5. *)
Abbreviation five := (mkMethod Z (lit "five") (fun _ _ => ret (@PInt Z 5))).
(** A world in which the key named after [store] holds a text. *)
Abbreviation spoiled_world :=
  (mkWorld (<["Cache.store" := RString "many"]> ∅) [] sample_entropy 0 []).


Lemma count_calls_blocks_on_a_bad_counter_witness :
  utf8_encode (lit "Cache.store") = Some "Cache.store"
  /\ holds_counter spoiled_world "Cache.store" = false
  /\ exists msg,
       run_call (counting the_store_body) [foo] [] spoiled_world
       = (Raise (ResponseError msg), asked spoiled_world (INCR "Cache.store")).
Proof.
  split; [reflexivity|]. split; [reflexivity|].
  exact (count_calls_blocks_on_a_bad_counter Z sample_float_repr sample_printable
           the_store_body [foo] [] spoiled_world "Cache.store" eq_refl eq_refl).
Defined.




Lemma store_leaves_other_keys_alone_witness :
  ready drifted_world = true
  /\ supported Z foo = true
  /\ server (after (run_store (ByPosition foo)) drifted_world) !! "elsewhere"
     = server drifted_world !! "elsewhere".
Proof.
  split; [reflexivity|]. split; [reflexivity|].
  apply (store_leaves_other_keys_alone Z sample_float_repr sample_printable
           drifted_world (ByPosition foo) "elsewhere" eq_refl eq_refl);
    discriminate.
Defined.




Lemma get_str_by_cases_witness :
  Encoder_encode Z sample_float_repr sample_printable (PStr (lit "Cache.store:inputs"))
  = Ok "Cache.store:inputs"
  /\ fst (run_get_str (PStr (lit "Cache.store:inputs")) drifted_world)
     = Raise (ResponseError WRONGTYPE).
Proof.
  split; [reflexivity|].
  exact (get_str_by_cases Z sample_float_repr sample_printable
           drifted_world (PStr (lit "Cache.store:inputs")) "Cache.store:inputs" eq_refl).
Defined.

Lemma get_int_raises_only_on_a_list_witness :
  Encoder_encode Z sample_float_repr sample_printable (PStr (lit "Cache.store:inputs"))
  = Ok "Cache.store:inputs"
  /\ fst (run_get_int (PStr (lit "Cache.store:inputs")) drifted_world)
     = Raise (ResponseError WRONGTYPE).
Proof.
  split; [reflexivity|].
  exact (get_int_raises_only_on_a_list Z sample_float_repr sample_printable
           sample_space sample_decimal
           drifted_world (PStr (lit "Cache.store:inputs")) "Cache.store:inputs" eq_refl).
Defined.

Lemma replay_of_an_uncalled_method_witness :
  utf8_encode (lit "Cache.store") = Some "Cache.store"
  /\ server fresh_world !! "Cache.store" = None
  /\ server fresh_world !! "Cache.store:inputs" = None
  /\ server fresh_world !! "Cache.store:outputs" = None
  /\ exists w',
       run_replay the_store_method fresh_world = (Ok tt, w')
       /\ stdout w' = [lit "Cache.store was called 0 times:"].
Proof.
  repeat (split; [reflexivity|]).
  exact (replay_of_an_uncalled_method Z sample_float_repr sample_printable
           fresh_world the_store_method "Cache.store" eq_refl eq_refl eq_refl eq_refl).
Defined.


Lemma construction_erases_the_history_witness :
  utf8_encode (lit "Cache.store") = Some "Cache.store"
  /\ exists w',
       (Cache_init ;;; run_replay the_store_method) drifted_world = (Ok tt, w')
       /\ stdout w' = [lit "Cache.store was called 0 times:"]
       /\ fst (run_get_int (PStr (lit "Cache.store")) w') = Ok 0.
Proof.
  split; [reflexivity|].
  exact (construction_erases_the_history Z sample_float_repr sample_printable
           sample_space sample_decimal drifted_world the_store_method "Cache.store" eq_refl).
Defined.
